(** * Table of Contents of a CD: boundary queries, disc identifiers, cue sheets

    A shallow embedding of [morituri/image/table.py] (Python 2): the flat
    [Table] of [Track]s, the [IndexTable] of [ITTrack]s with their [Index]
    dictionaries, the CDDB and AccurateRip identifier algorithms that both
    classes carry, and the cue-sheet writer of [IndexTable].

    Python integers are unbounded, so they are [Z]; [/] on two ints is floor
    division ([Z.div]), [%] with a positive right operand is [Z.modulo],
    [<<], [|] and [&] are [Z.shiftl], [Z.lor] and [Z.land].  An attribute
    that may hold [None] is an [option]; a dictionary keyed by ints is a
    [gmap Z]; a raised exception is the [Raise] outcome of [result]. *)

From Stdlib Require Import Ascii.
From stdpp Require Import gmap strings list fin_maps sorting.
From Equations Require Import Equations.

Local Open Scope Z_scope.

(* ===================================================================== *)
(** * Outcomes of Python code *)
(* ===================================================================== *)

(** The built-in exceptions the module can raise: a list index out of
    range, a dictionary key that is absent, arithmetic on [None]. *)
Inductive pyexc : Set := IndexError | KeyError | TypeError.

Inductive result (A : Type) : Type :=
| Ok (a : A)
| Raise (e : pyexc).
Arguments Ok {A} a.
Arguments Raise {A} e.

Definition bind {A B : Type} (m : result A) (k : A → result B) : result B :=
  match m with
  | Ok a => k a
  | Raise e => Raise e
  end.

Notation "'let*' x := m 'in' k" := (bind m (fun x => k))
  (at level 10, x name, m at level 100, k at level 200).

(** [for x in l: body], threading the loop's variables as a state. *)
Fixpoint for_each {A S : Type} (body : S → A → result S) (l : list A) (s : S)
  : result S :=
  match l with
  | [] => Ok s
  | x :: l' => let* s' := body s x in for_each body l' s'
  end.

(** [l[i]]: a negative index counts from the end; out of range raises. *)
Definition py_index {A : Type} (l : list A) (i : Z) : result A :=
  let n := Z.of_nat (length l) in
  let j := if i <? 0 then i + n else i in
  if (j <? 0) || (n <=? j) then Raise IndexError
  else match l !! Z.to_nat j with
       | Some x => Ok x
       | None => Raise IndexError
       end.

(** [d[k]] on a dictionary. *)
Definition dict_get {V : Type} (d : gmap Z V) (k : Z) : result V :=
  match d !! k with
  | Some v => Ok v
  | None => Raise KeyError
  end.

(** [d.keys()] followed by [.sort()]. *)
Definition sorted_keys {V : Type} (d : gmap Z V) : list Z :=
  merge_sort Z.le (map_to_list d).*1.

(** An operand of [+], [-] or [/] next to an int: [None] raises. *)
Definition as_int (v : option Z) : result Z :=
  match v with
  | Some z => Ok z
  | None => Raise TypeError
  end.

(** [v or 1] on an int. *)
Definition or_1 (v : Z) : Z := if v =? 0 then 1 else v.

(* ===================================================================== *)
(** * String formatting *)
(* ===================================================================== *)

Definition dquote : string := String "034"%char EmptyString.
Definition newline : string := String "010"%char EmptyString.

(** The character of a digit below 16, lowercase as [%x] prints it. *)
Definition digit_char (d : Z) : ascii :=
  if d <? 10 then ascii_of_N (Z.to_N (48 + d)) else ascii_of_N (Z.to_N (87 + d)).

(** The digits of a non-negative [z] in base [b], most significant first. *)
Equations? to_digits (b z : Z) : list Z by wf (Z.to_nat (Z.log2 z)) lt :=
  to_digits b z with decide (1 < b ∧ b ≤ z) => {
    | left _ := to_digits b (z `div` b) ++ [z `mod` b];
    | right _ := [z] }.
Proof.
  (* dividing by a base of at least 2 shortens the binary length *)
  assert (0 ≤ z `div` b) by (apply Z.div_pos; lia).
  assert (z `div` b ≤ z `div` 2) by (apply Z.div_le_compat_l; lia).
  assert (Z.log2 (z `div` b) ≤ Z.log2 (z `div` 2)) by (apply Z.log2_le_mono; lia).
  assert (Z.log2 (z `div` 2) = Z.log2 z - 1) as Hl2.
  { change 2 with (2 ^ 1). rewrite <- Z.shiftr_div_pow2 by lia.
    rewrite Z.log2_shiftr by lia.
    assert (0 < Z.log2 z) by (apply Z.log2_pos; lia). lia. }
  pose proof (Z.log2_nonneg (z `div` b)). lia.
Qed.

Definition zeros (n : nat) : list ascii := replicate n "0"%char.

(** [%0<width>.<prec>d] and [%0<width>.<prec>x]: the sign first, then
    zeros up to the width, then at least [prec] digits. *)
Definition fmt_int (b : Z) (width prec : nat) (v : Z) : string :=
  let ds := digit_char <$> to_digits b (Z.abs v) in
  let ds := zeros (prec - length ds) ++ ds in
  let sign := if v <? 0 then ["-"%char] else [] in
  String.string_of_list_ascii
    (sign ++ zeros (width - length sign - length ds) ++ ds).

(** ["%08x" % v] *)
Definition fmt_08x : Z → string := fmt_int 16 8 0.
(** ["%02d" % v] *)
Definition fmt_02d : Z → string := fmt_int 10 2 0.
(** ["%.3d" % v] *)
Definition fmt_p3d : Z → string := fmt_int 10 0 3.

(** ["%s" % p] for a string or [None]. *)
Definition fmt_s (p : option string) : string :=
  match p with
  | Some s => s
  | None => "None"
  end.

(** [sep.join(l)] *)
Fixpoint join (sep : string) (l : list string) : string :=
  match l with
  | [] => EmptyString
  | x :: l' =>
      match l' with
      | [] => x
      | _ :: _ => x +:+ sep +:+ join sep l'
      end
  end.

(** [s[i]] on a string: the one-character string at that place. *)
Definition str_index (s : string) (i : Z) : result string :=
  let* c := py_index (String.list_ascii_of_string s) i in
  Ok (String c EmptyString).

(** Modelled from the spec: [checksum.FRAMES_PER_SECOND], the number of disc
    frames in a second, is declared in a module that is not part of these
    sources; the specification fixes it at 75. *)
Definition FRAMES_PER_SECOND : Z := 75.

(** Modelled from the spec: [common.framesToMSF] is declared in a module
    that is not part of these sources; the specification describes it as
    the frames to minutes:seconds:frames formatter, two digits each, with
    1000 frames printed as 00:13:25.  Arithmetic on [None] raises. *)
Definition framesToMSF (frames : option Z) : result string :=
  let* frames := as_int frames in
  let f := frames `mod` FRAMES_PER_SECOND in
  let s := (frames `div` FRAMES_PER_SECOND) `mod` 60 in
  let m := (frames `div` FRAMES_PER_SECOND) `div` 60 in
  Ok (fmt_02d m +:+ ":" +:+ fmt_02d s +:+ ":" +:+ fmt_02d f).

(* ===================================================================== *)
(** * The flat table *)
(* ===================================================================== *)

Module Track.
(** [start] and [end] are ints, as the class documents them; [end] is a
    keyword here, hence [end_]. *)
Record t : Type := mk {
  number : Z;
  start : Z;
  end_ : Z;
  audio : bool;
}.
End Track.

Module Table.
Record t : Type := mk { tracks : list Track.t }.

Definition getTrackStart (self : t) (number : Z) : result Z :=
  let* track := py_index (tracks self) (number - 1) in
  Ok (Track.start track).

Definition getTrackEnd (self : t) (number : Z) : result Z :=
  let* track := py_index (tracks self) (number - 1) in
  Ok (Track.end_ track).

Definition getTrackLength (self : t) (number : Z) : result Z :=
  let* track := py_index (tracks self) (number - 1) in
  Ok (Track.end_ track - Track.start track + 1).
End Table.

(* ===================================================================== *)
(** * The index table *)
(* ===================================================================== *)

Module Index.
Record t : Type := mk {
  number : Z;
  absolute : option Z;
  path : option string;
  relative : option Z;
  counter : option Z;
}.
End Index.

Module ITTrack.
Record t : Type := mk {
  number : Z;
  audio : bool;
  indexes : gmap Z Index.t;
}.

(** [ITTrack(number, audio)]: no index yet. *)
Definition new (number : Z) (audio : bool) : t := mk number audio ∅.

Definition index (self : t) (number : Z) (absolute : option Z)
    (path : option string) (relative counter : option Z) : t :=
  let i := Index.mk number absolute path relative counter in
  mk (ITTrack.number self) (ITTrack.audio self) (<[number := i]> (indexes self)).

Definition getIndex (self : t) (number : Z) : result Index.t :=
  dict_get (indexes self) number.

Definition getFirstIndex (self : t) : result Index.t :=
  let indexes := sorted_keys (ITTrack.indexes self) in
  let* first := py_index indexes 0 in
  dict_get (ITTrack.indexes self) first.
End ITTrack.

Module IndexTable.
Record t : Type := mk {
  tracks : list ITTrack.t;
  leadout : option Z;
}.

(** The value returned is the [absolute] attribute as it is, [None]
    included. *)
Definition getTrackStart (self : t) (number : Z) : result (option Z) :=
  let* track := py_index (tracks self) (number - 1) in
  let* i := ITTrack.getIndex track 1 in
  Ok (Index.absolute i).

Definition getTrackEnd (self : t) (number : Z) : result Z :=
  let* leadout := as_int (leadout self) in
  let end_ := leadout - 1 in
  if number <? Z.of_nat (length (tracks self)) then
    let* next := py_index (tracks self) number in
    let* i := ITTrack.getIndex next 1 in
    let* absolute := as_int (Index.absolute i) in
    Ok (absolute - 1)
  else Ok end_.

Definition getTrackLength (self : t) (number : Z) : result Z :=
  let* track := py_index (tracks self) (number - 1) in
  let* end_ := getTrackEnd self number in
  let* start := getTrackStart self number in
  let* start := as_int start in
  Ok (end_ - start + 1).

Definition file_line (path : option string) : string :=
  "FILE " +:+ dquote +:+ fmt_s path +:+ dquote +:+ " WAVE".

(** The body of the inner loop of [cue]: one index of one track.
    [currentPath] is read here and assigned nowhere in the loops. *)
Definition cue_index (currentPath : option string) (track : ITTrack.t)
    (lines : list string) (number : Z) : result (list string) :=
  let* index := dict_get (ITTrack.indexes track) number in
  let lines :=
    if decide (Index.path index ≠ currentPath)
    then lines ++ [file_line (Index.path index)]
    else lines in
  let* msf := framesToMSF (Index.relative index) in
  Ok (lines ++ ["    INDEX " +:+ fmt_02d number +:+ " " +:+ msf]).

(** The body of the outer loop of [cue], over [enumerate(self.tracks)]. *)
Definition cue_track (currentPath : option string) (lines : list string)
    (it : nat * ITTrack.t) : result (list string) :=
  let '(i, track) := it in
  let lines := lines ++ ["  TRACK " +:+ fmt_02d (Z.of_nat i + 1) +:+ " AUDIO"] in
  let indexes := sorted_keys (ITTrack.indexes track) in
  for_each (cue_index currentPath track) indexes lines.

Definition cue (self : t) : result string :=
  let* first := py_index (tracks self) 0 in
  let* i := ITTrack.getFirstIndex first in
  let path := Index.path i in
  let currentPath := path in
  let lines := [file_line path] in
  let* lines := for_each (cue_track currentPath) (imap pair (tracks self)) lines in
  let lines := lines ++ [EmptyString] in
  Ok (join newline lines).
End IndexTable.

(* ===================================================================== *)
(** * The identifier algorithms, written once for both classes *)
(* ===================================================================== *)

(** What [getCDDBDiscId], [getAccurateRipIds] and [getAccurateRipURL] use
    of [self]; the two classes repeat the same text for the three methods
    (and for [getAudioTracks] and [_cddbSum]).  [getTrackStart] yields a
    Python value, an int or [None]. *)
Class TrackTable (T Tr : Type) : Type := {
  tracks : T → list Tr;
  number : Tr → Z;
  audio : Tr → bool;
  getTrackStart : T → Z → result (option Z);
  getTrackEnd : T → Z → result Z;
}.

#[export] Instance Table_TrackTable : TrackTable Table.t Track.t := {|
  tracks := Table.tracks;
  number := Track.number;
  audio := Track.audio;
  getTrackStart self n := let* s := Table.getTrackStart self n in Ok (Some s);
  getTrackEnd := Table.getTrackEnd;
|}.

#[export] Instance IndexTable_TrackTable : TrackTable IndexTable.t ITTrack.t := {|
  tracks := IndexTable.tracks;
  number := ITTrack.number;
  audio := ITTrack.audio;
  getTrackStart := IndexTable.getTrackStart;
  getTrackEnd := IndexTable.getTrackEnd;
|}.

(** The [while i > 0] loop of [_cddbSum], on its two variables. *)
Equations? _cddbSum_loop (ret i : Z) : Z by wf (Z.to_nat (Z.log2 (2 * i))) lt :=
  _cddbSum_loop ret i with decide (i > 0) => {
    | left _ := _cddbSum_loop (ret + i `mod` 10) (i `div` 10);
    | right _ := ret }.
Proof.
  (* [2 * i] has one bit more than [i], also when [i / 10] is 0 *)
  rewrite (Z.log2_double i) by lia.
  pose proof (Z.log2_nonneg i).
  destruct (decide (10 ≤ i)) as [Hi | Hi].
  - assert (0 < i `div` 10) by (apply Z.div_str_pos; lia).
    rewrite Z.log2_double by lia.
    assert (i `div` 10 ≤ i `div` 2) by (apply Z.div_le_compat_l; lia).
    assert (Z.log2 (i `div` 10) ≤ Z.log2 (i `div` 2)) by (apply Z.log2_le_mono; lia).
    assert (Z.log2 (i `div` 2) = Z.log2 i - 1) as Hl2.
    { change 2 with (2 ^ 1) at 1. rewrite <- Z.shiftr_div_pow2 by lia.
      rewrite Z.log2_shiftr by lia.
      assert (0 < Z.log2 i) by (apply Z.log2_pos; lia). lia. }
    pose proof (Z.log2_nonneg (i `div` 10)). lia.
  - rewrite Z.div_small by lia. simpl. lia.
Qed.

Definition _cddbSum (i : Z) : Z := _cddbSum_loop 0 i.

Section Identifiers.
Context {T Tr : Type} `{TrackTable T Tr}.

Definition getAudioTracks (self : T) : Z :=
  Z.of_nat (length (filter (λ t, audio t = true) (tracks self))).

(** The body of the loop of [getCDDBDiscId]. *)
Definition cddb_step (self : T) (n : Z) (track : Tr) : result Z :=
  let* start := getTrackStart self (number track) in
  let* start := as_int start in
  let offset := start + 2 * FRAMES_PER_SECOND in
  let seconds := offset `div` FRAMES_PER_SECOND in
  Ok (n + _cddbSum seconds).

(** The integer that [getCDDBDiscId] formats. *)
Definition cddb_value (self : T) : result Z :=
  let* n := for_each (cddb_step self) (tracks self) 0 in
  let* last := py_index (tracks self) (-1) in
  let* leadout := getTrackEnd self (number last) in
  let* start := getTrackStart self 1 in
  let* start := as_int start in
  let frameLength := leadout - start in
  let t := frameLength `div` FRAMES_PER_SECOND in
  Ok (Z.lor (Z.lor (Z.shiftl (n `mod` 255) 24) (Z.shiftl t 8))
            (Z.of_nat (length (tracks self)))).

Definition getCDDBDiscId (self : T) : result string :=
  let* value := cddb_value self in
  Ok (fmt_08x value).

(** The body of the loop of [getAccurateRipIds], on [(discId1, discId2)]. *)
Definition ar_step (self : T) (ids : Z * Z) (track : Tr) : result (Z * Z) :=
  let '(discId1, discId2) := ids in
  if negb (audio track) then Ok (discId1, discId2)
  else
    let* offset := getTrackStart self (number track) in
    let* offset := as_int offset in
    Ok (discId1 + offset, discId2 + or_1 offset * number track).

Definition getAccurateRipIds (self : T) : result (string * string) :=
  let* ids := for_each (ar_step self) (tracks self) (0, 0) in
  let '(discId1, discId2) := ids in
  let* last := py_index (tracks self) (-1) in
  let* end_ := getTrackEnd self (number last) in
  let offset := end_ + 1 in
  let discId1 := discId1 + offset in
  let discId2 := discId2 + offset * (getAudioTracks self + 1) in
  let discId1 := Z.land discId1 4294967295 in
  let discId2 := Z.land discId2 4294967295 in
  Ok (fmt_08x discId1, fmt_08x discId2).

Definition getAccurateRipURL (self : T) : result string :=
  let* ids := getAccurateRipIds self in
  let '(discId1, discId2) := ids in
  let* d1 := str_index discId1 (-1) in
  let* d2 := str_index discId1 (-2) in
  let* d3 := str_index discId1 (-3) in
  let count := fmt_p3d (Z.of_nat (length (tracks self))) in
  let* cddb := getCDDBDiscId self in
  Ok ("http://www.accuraterip.com/accuraterip/" +:+
      d1 +:+ "/" +:+ d2 +:+ "/" +:+ d3 +:+ "/dBAR-" +:+ count +:+
      "-" +:+ discId1 +:+ "-" +:+ discId2 +:+ "-" +:+ cddb +:+ ".bin").
End Identifiers.


(* ===================================================================== *)
(** * What the specification says, in its own words *)
(* ===================================================================== *)

Definition Zsum (l : list Z) : Z := foldr Z.add 0 l.

(** The [k]-th base-10 digit of [z], counted from the units. *)
Definition decimal_digit (z : Z) (k : nat) : Z :=
  (z `div` 10 ^ Z.of_nat k) `mod` 10.

(** The base-10 digit sum of [z]: a number has no more decimal digits than
    binary ones, and the digits beyond the last one are 0. *)
Definition digit_sum (z : Z) : Z :=
  Zsum (decimal_digit z <$> seq 0 (S (Z.to_nat (Z.log2 z)))).

(** The value of the legacy identifier, from the start offsets of all
    tracks, the end of the last track and the start of track 1. *)
Definition cddb_spec (starts : list Z) (lastEnd firstStart : Z) : Z :=
  let n := Zsum ((λ s, digit_sum ((s + 2 * 75) `div` 75)) <$> starts) in
  let totalSeconds := (lastEnd - firstStart) `div` 75 in
  let trackCount := Z.of_nat (length starts) in
  Z.lor (Z.lor (Z.shiftl (n `mod` 255) 24) (Z.shiftl totalSeconds 8)) trackCount.

(** The number that a list of digits denotes in base [b]. *)
Definition digits_value (b : Z) (ds : list Z) : Z :=
  foldl (λ acc d, acc * b + d) 0 ds.

Definition is_lower_hex (c : ascii) : bool :=
  let n := N_of_ascii c in
  ((48 <=? n) && (n <=? 57) || (97 <=? n) && (n <=? 102))%N.

(** The two accumulators of the accuracy identifier before truncation, from
    the [(start, number)] pairs of the audio tracks and the end of the last
    track, audio or data. *)
Definition ar_id1_spec (audioTracks : list (Z * Z)) (lastEnd : Z) : Z :=
  Zsum (fst <$> audioTracks) + (lastEnd + 1).

Definition ar_id2_spec (audioTracks : list (Z * Z)) (lastEnd : Z) : Z :=
  Zsum ((λ p, Z.max p.1 1 * p.2) <$> audioTracks)
  + (lastEnd + 1) * (Z.of_nat (length audioTracks) + 1).

(** Truncation to 32 bits. *)
Definition truncate32 (x : Z) : Z := x `mod` 2 ^ 32.

(** The end of track [n] of an index table is unknown: the leadout is
    unset, or the next track has no index 1. *)
Definition end_unknown (it : IndexTable.t) (n : Z) : Prop :=
  IndexTable.leadout it = None ∨
  (n < Z.of_nat (length (IndexTable.tracks it)) ∧
   ∃ next, py_index (IndexTable.tracks it) n = Ok next ∧
           ITTrack.indexes next !! 1 = None).

(** Exactly 8 lowercase hexadecimal characters. *)
Definition is_hex8 (s : string) : bool :=
  (String.length s =? 8)%nat && forallb is_lower_hex (String.list_ascii_of_string s).

(** The character [k] places before the end of [s]: 0 is the last one. *)
Definition nth_last (s : string) (k : nat) : option ascii :=
  reverse (String.list_ascii_of_string s) !! k.

Definition char (c : ascii) : string := String c EmptyString.

(** ["%03d" % v] *)
Definition fmt_03d : Z → string := fmt_int 10 3 0.

(** The frame where the track at place [n - 1] of [len] tracks stops:
    the start [a n] of the track after it, or the leadout after the last
    track. *)
Definition following_start (len : nat) (a : nat → Z) (leadout : Z) (n : nat) : Z :=
  if (n <? len)%nat then a n else leadout.

(* ===================================================================== *)
(** * Tables used as examples *)
(* ===================================================================== *)

(** Two audio tracks and a data track; the first starts at frame 0. *)
Definition three_tracks : Table.t :=
  Table.mk [Track.mk 1 0 15536 true; Track.mk 2 15537 31115 true;
            Track.mk 3 31116 100000 false].

(** One track as long as 2^24 seconds. *)
Definition long_track : Table.t := Table.mk [Track.mk 1 0 1258291200 true].

(** Two tracks with their index 1, and no leadout. *)
Definition no_leadout : IndexTable.t :=
  IndexTable.mk
    [ITTrack.index (ITTrack.new 1 true) 1 (Some 0) (Some "a.wav") (Some 0) None;
     ITTrack.index (ITTrack.new 2 true) 1 (Some 15537) (Some "a.wav")
       (Some 15537) None]
    None.

(** The same two tracks with the leadout at frame 31116. *)
Definition with_leadout : IndexTable.t :=
  IndexTable.mk (IndexTable.tracks no_leadout) (Some 31116).

(** Track 2 has an index 0 only, so the end of track 1 is unknown although
    the leadout is set. *)
Definition missing_index : IndexTable.t :=
  IndexTable.mk
    [ITTrack.index (ITTrack.new 1 true) 1 (Some 0) (Some "a.wav") (Some 0) None;
     ITTrack.index (ITTrack.new 2 true) 0 (Some 15387) (Some "a.wav")
       (Some 15387) None]
    (Some 31116).

(** Track 2 lies in a second file with both its indexes. *)
Definition two_files : IndexTable.t :=
  IndexTable.mk
    [ITTrack.index (ITTrack.new 1 true) 1 None (Some "a.wav") (Some 0) None;
     ITTrack.index
       (ITTrack.index (ITTrack.new 2 true) 0 None (Some "b.wav") (Some 0) None)
       1 None (Some "b.wav") (Some 150) None]
    None.

(** The pregap of track 2 lies in a second file, its index 1 in the first
    file again. *)
Definition back_to_first_file : IndexTable.t :=
  IndexTable.mk
    [ITTrack.index (ITTrack.new 1 true) 1 None (Some "a.wav") (Some 0) None;
     ITTrack.index
       (ITTrack.index (ITTrack.new 2 true) 0 None (Some "b.wav") (Some 0) None)
       1 None (Some "a.wav") (Some 150) None]
    None.

(** The table of the test [WriteCueTestCase.testWrite]. *)
Definition test_write : IndexTable.t :=
  IndexTable.mk
    [ITTrack.index (ITTrack.new 1 true) 1 None (Some "track01.wav") (Some 0) None;
     ITTrack.index
       (ITTrack.index (ITTrack.new 2 true) 0 None (Some "track01.wav")
          (Some 1000) None)
       1 None (Some "track02.wav") (Some 0) None]
    None.

(* ===================================================================== *)
(** * Outcomes, indexing *)
(* ===================================================================== *)

(* ===================================================================== *)
(** * Outcomes, indexing *)
(* ===================================================================== *)

Lemma bind_Ok {A B : Type} (m : result A) (k : A → result B) (b : B) :
  (let* x := m in k x) = Ok b ↔ ∃ a, m = Ok a ∧ k a = Ok b.
Proof.
  destruct m as [a | e]; simpl; split.
  - intros Hk. exists a. done.
  - intros (a' & [= ->] & Hk). done.
  - intros [=].
  - intros (a' & [=] & _).
Qed.

Lemma py_index_nil {A : Type} (i : Z) : py_index (@nil A) i = Raise IndexError.
Proof. unfold py_index. simpl. by destruct (_ || _). Qed.

Lemma py_index_nonneg {A : Type} (l : list A) (i : nat) (x : A) :
  l !! i = Some x → py_index l (Z.of_nat i) = Ok x.
Proof.
  intros Hx. pose proof (lookup_lt_Some _ _ _ Hx) as Hlt.
  unfold py_index.
  destruct (Z.ltb_spec (Z.of_nat i) 0); [lia |].
  destruct (Z.ltb_spec (Z.of_nat i) 0); [lia |].
  destruct (Z.leb_spec (Z.of_nat (length l)) (Z.of_nat i)); [lia |].
  simpl. by rewrite Nat2Z.id, Hx.
Qed.

Lemma py_index_from_end {A : Type} (l : list A) (k : nat) (x : A) :
  reverse l !! k = Some x → py_index l (- Z.of_nat (S k)) = Ok x.
Proof.
  intros Hx.
  assert (k < length l)%nat as Hlt.
  { rewrite <- length_reverse. by eapply lookup_lt_Some. }
  rewrite reverse_lookup in Hx by done.
  unfold py_index.
  destruct (Z.ltb_spec (- Z.of_nat (S k)) 0); [| lia].
  destruct (Z.ltb_spec (- Z.of_nat (S k) + Z.of_nat (length l)) 0); [lia |].
  destruct (Z.leb_spec (Z.of_nat (length l))
              (- Z.of_nat (S k) + Z.of_nat (length l))); [lia |].
  simpl.
  replace (Z.to_nat (- Z.of_nat (S k) + Z.of_nat (length l)))
    with (length l - S k)%nat by lia.
  by rewrite Hx.
Qed.

Lemma py_index_last {A : Type} (l : list A) (x : A) :
  last l = Some x → py_index l (-1) = Ok x.
Proof.
  intros Hx. apply (py_index_from_end l 0).
  rewrite reverse_lookup.
  - rewrite last_lookup in Hx. by replace (length l - 1)%nat with (pred (length l)) by lia.
  - destruct l; [done | simpl; lia].
Qed.

(** An index that [py_index] accepts names an element of the list. *)
Lemma py_index_Ok_elem {A : Type} (l : list A) (i : Z) (x : A) :
  py_index l i = Ok x → x ∈ l.
Proof.
  unfold py_index.
  destruct (_ || _); [done |].
  destruct (l !! _) eqn:Hx; [| done].
  intros [= <-]. by eapply list_elem_of_lookup_2.
Qed.

(* ===================================================================== *)
(** * Formatting *)
(* ===================================================================== *)

Lemma to_digits_eq (b z : Z) :
  to_digits b z =
  if decide (1 < b ∧ b ≤ z) then to_digits b (z `div` b) ++ [z `mod` b] else [z].
Proof.
  rewrite (to_digits_equation_1 b z).
  destruct (decide _); reflexivity.
Qed.

Lemma to_digits_length (b z : Z) (k : nat) :
  1 < b → z < b ^ Z.of_nat (S k) → (length (to_digits b z) ≤ S k)%nat.
Proof.
  intros Hb. revert z. induction k as [| k IH]; intros z Hz; rewrite to_digits_eq.
  - destruct (decide _) as [[_ Hz'] |]; [| simpl; lia].
    change (Z.of_nat 1) with 1 in Hz. lia.
  - destruct (decide _) as [[_ Hz'] |]; [| simpl; lia].
    rewrite length_app. simpl.
    assert (length (to_digits b (z `div` b)) ≤ S k)%nat; [| lia].
    apply IH. apply Z.div_lt_upper_bound; [lia |].
    rewrite (Nat2Z.inj_succ (S k)), Z.pow_succ_r in Hz by lia. done.
Qed.

Lemma to_digits_range (b z : Z) :
  1 < b → 0 ≤ z → Forall (λ d, 0 ≤ d < b) (to_digits b z).
Proof.
  intros Hb. pattern z. apply (well_founded_induction (Z.lt_wf 0)).
  clear z. intros z IH Hz. rewrite to_digits_eq.
  destruct (decide _) as [[_ Hz'] |].
  - apply Forall_app. split.
    + assert (0 ≤ z `div` b) by (apply Z.div_pos; lia).
      apply IH; [| done]. split; [done |]. apply Z.div_lt; lia.
    + apply Forall_singleton. apply Z.mod_pos_bound. lia.
  - apply Forall_singleton. lia.
Qed.

(** The digits are the positional notation of the number. *)
Lemma to_digits_value (b z : Z) :
  1 < b → 0 ≤ z → digits_value b (to_digits b z) = z.
Proof.
  intros Hb. pattern z. apply (well_founded_induction (Z.lt_wf 0)).
  clear z. intros z IH Hz. rewrite to_digits_eq.
  destruct (decide _) as [[_ Hz'] |].
  - unfold digits_value. rewrite foldl_app. simpl.
    fold (digits_value b (to_digits b (z `div` b))).
    assert (0 ≤ z `div` b) by (apply Z.div_pos; lia).
    rewrite IH; [| split; [done | apply Z.div_lt; lia] | done].
    rewrite (Z.div_mod z b) at 3 by lia. lia.
  - unfold digits_value. simpl. lia.
Qed.

Lemma digit_char_lower_hex (d : Z) :
  0 ≤ d < 16 → is_lower_hex (digit_char d) = true.
Proof.
  intros Hd.
  assert (∃ n : nat, (n < 16)%nat ∧ d = Z.of_nat n) as (n & Hn & ->).
  { exists (Z.to_nat d). lia. }
  do 16 (destruct n as [| n]; [reflexivity |]). lia.
Qed.

Lemma length_string_of_list_ascii (l : list ascii) :
  String.length (String.string_of_list_ascii l) = length l.
Proof. induction l as [| c l IH]; simpl; congruence. Qed.

Lemma forallb_zeros (n : nat) : forallb is_lower_hex (zeros n) = true.
Proof. unfold zeros. induction n as [| n IH]; simpl; [done | exact IH]. Qed.

(** A value that fits in 32 bits is printed by ["%08x"] as exactly 8
    lowercase hexadecimal characters. *)
Lemma fmt_08x_hex8 (v : Z) : 0 ≤ v < 2 ^ 32 → is_hex8 (fmt_08x v) = true.
Proof.
  intros Hv. unfold is_hex8, fmt_08x, fmt_int.
  destruct (Z.ltb_spec v 0); [lia |].
  rewrite Z.abs_eq by lia. simpl.
  pose proof (to_digits_length 16 v 7 ltac:(lia) ltac:(simpl; lia)) as Hlen.
  pose proof (to_digits_range 16 v ltac:(lia) ltac:(lia)) as Hrange.
  rewrite length_string_of_list_ascii, String.list_ascii_of_string_of_list_ascii.
  apply andb_true_intro. split.
  - apply Nat.eqb_eq. rewrite length_app. unfold zeros.
    rewrite length_replicate, length_fmap. lia.
  - rewrite forallb_app, forallb_zeros. simpl.
    apply forallb_forall. intros c Hc.
    apply in_map_iff in Hc as (d & <- & Hd).
    apply digit_char_lower_hex.
    rewrite Forall_forall in Hrange. apply Hrange. by apply list_elem_of_In.
Qed.

Lemma land_32_range (x : Z) : 0 ≤ Z.land x 4294967295 < 2 ^ 32.
Proof.
  change 4294967295 with (Z.ones 32).
  rewrite Z.land_ones by lia. apply Z.mod_pos_bound. lia.
Qed.

(** For a count, which is not negative, ["%.3d"] and ["%03d"] print the
    same three digits or more. *)
Lemma fmt_p3d_03d (n : Z) : 0 ≤ n → fmt_p3d n = fmt_03d n.
Proof.
  intros Hn. unfold fmt_p3d, fmt_03d, fmt_int.
  destruct (Z.ltb_spec n 0); [lia |]. reflexivity.
Qed.

(* ===================================================================== *)
(** * The digit sum *)
(* ===================================================================== *)

Lemma cddbSum_loop_eq (ret i : Z) :
  _cddbSum_loop ret i =
  if decide (i > 0) then _cddbSum_loop (ret + i `mod` 10) (i `div` 10) else ret.
Proof.
  rewrite (_cddbSum_loop_equation_1 ret i).
  destruct (decide _); reflexivity.
Qed.

Lemma decimal_digit_succ (z : Z) (k : nat) :
  decimal_digit z (S k) = decimal_digit (z `div` 10) k.
Proof.
  unfold decimal_digit.
  rewrite Nat2Z.inj_succ, Z.pow_succ_r by lia.
  rewrite Z.div_div by lia. reflexivity.
Qed.

Lemma Zsum_digits_succ (z : Z) (k : nat) :
  Zsum (decimal_digit z <$> seq 0 (S k)) =
  z `mod` 10 + Zsum (decimal_digit (z `div` 10) <$> seq 0 k).
Proof.
  rewrite <- cons_seq, fmap_cons, <- fmap_S_seq, <- list_fmap_compose. simpl.
  f_equal.
  - unfold decimal_digit. simpl. by rewrite Z.div_1_r.
  - f_equal. apply list_fmap_ext. intros _ j _. apply decimal_digit_succ.
Qed.

Lemma Zsum_digits_0 (k : nat) : Zsum (decimal_digit 0 <$> seq 0 k) = 0.
Proof.
  induction k as [| k IH]; [done |].
  rewrite Zsum_digits_succ. by rewrite Z.div_0_l, Z.mod_0_l, IH by lia.
Qed.

(** The loop adds to [ret] the digits of [i], whatever bound [10 ^ k] on
    [i] is used to count them. *)
Lemma cddbSum_loop_digits (k : nat) (ret i : Z) :
  0 ≤ i < 10 ^ Z.of_nat k →
  _cddbSum_loop ret i = ret + Zsum (decimal_digit i <$> seq 0 k).
Proof.
  revert ret i. induction k as [| k IH]; intros ret i Hi; rewrite cddbSum_loop_eq.
  - change (10 ^ Z.of_nat 0) with 1 in Hi.
    destruct (decide _); [lia |]. simpl. lia.
  - destruct (decide _) as [Hpos | Hzero].
    + rewrite Zsum_digits_succ, IH; [lia |].
      rewrite Nat2Z.inj_succ, Z.pow_succ_r in Hi by lia.
      split; [apply Z.div_pos; lia |].
      apply Z.div_lt_upper_bound; lia.
    + assert (i = 0) as -> by lia. rewrite Zsum_digits_0. lia.
Qed.

(** [_cddbSum] is the base-10 digit sum of a number that is not negative. *)
Lemma cddbSum_digit_sum (i : Z) : 0 ≤ i → _cddbSum i = digit_sum i.
Proof.
  intros Hi. unfold _cddbSum, digit_sum.
  rewrite (cddbSum_loop_digits (S (Z.to_nat (Z.log2 i)))); [lia |].
  split; [done |].
  pose proof (Z.log2_nonneg i).
  rewrite Nat2Z.inj_succ, Z2Nat.id by done.
  destruct (decide (i = 0)) as [-> | Hne]; [done |].
  destruct (Z.log2_spec i) as [_ Hlt]; [lia |].
  eapply Z.lt_le_trans; [exact Hlt |].
  apply Z.pow_le_mono_l. lia.
Qed.

(** Below 1 the loop body never runs. *)
Lemma cddbSum_nonpos (i : Z) : i ≤ 0 → _cddbSum i = 0.
Proof.
  intros Hi. unfold _cddbSum. rewrite cddbSum_loop_eq.
  destruct (decide _); [lia | done].
Qed.

Example digit_sum_1234567 : digit_sum 1234567 = 28.
Proof. reflexivity. Qed.

(* ===================================================================== *)
(** * The identifier algorithms *)
(* ===================================================================== *)

Lemma Zsum_cons (x : Z) (l : list Z) : Zsum (x :: l) = x + Zsum l.
Proof. reflexivity. Qed.

Section IdentifierFacts.
Context {T Tr : Type} `{TrackTable T Tr}.
Implicit Types (self : T) (st : Tr → Z).

(** The first loop of [getCDDBDiscId], when every start is resolved. *)
Lemma cddb_loop self st (l : list Tr) (n : Z) :
  (∀ t, t ∈ l → getTrackStart self (number t) = Ok (Some (st t))) →
  for_each (cddb_step self) l n =
  Ok (n + Zsum ((λ t, _cddbSum ((st t + 2 * FRAMES_PER_SECOND)
                                  `div` FRAMES_PER_SECOND)) <$> l)).
Proof.
  revert n. induction l as [| t l IH]; intros n Hst.
  - simpl. f_equal. change (Zsum _) with 0. lia.
  - rewrite fmap_cons, Zsum_cons. simpl.
    unfold cddb_step at 1. rewrite (Hst t) by apply list_elem_of_here. simpl.
    rewrite IH by (intros t' Ht'; apply Hst; by apply list_elem_of_further).
    f_equal. lia.
Qed.

(** The loop of [getAccurateRipIds]: data tracks are passed over, and
    their starts are not even asked for. *)
Lemma ar_loop self st (l : list Tr) (discId1 discId2 : Z) :
  (∀ t, t ∈ l → audio t = true →
        getTrackStart self (number t) = Ok (Some (st t))) →
  for_each (ar_step self) l (discId1, discId2) =
  Ok (discId1 + Zsum (st <$> filter (λ t, audio t = true) l),
      discId2 + Zsum ((λ t, or_1 (st t) * number t)
                        <$> filter (λ t, audio t = true) l)).
Proof.
  revert discId1 discId2.
  induction l as [| t l IH]; intros discId1 discId2 Hst.
  - simpl. change (Zsum _) with 0. f_equal. f_equal; lia.
  - simpl. assert (∀ t', t' ∈ l → audio t' = true →
                  getTrackStart self (number t') = Ok (Some (st t'))) as Hl.
    { intros t' Ht'. apply Hst. by apply list_elem_of_further. }
    destruct (audio t) eqn:Haudio; simpl.
    + rewrite (Hst t) by (done || apply list_elem_of_here). simpl.
      rewrite IH by done. rewrite filter_cons_True by done.
      rewrite !fmap_cons, !Zsum_cons. f_equal. f_equal; lia.
    + rewrite IH by done. rewrite filter_cons_False by congruence. done.
Qed.

Lemma getAccurateRipIds_hex8 self (id1 id2 : string) :
  getAccurateRipIds self = Ok (id1, id2) →
  is_hex8 id1 = true ∧ is_hex8 id2 = true.
Proof.
  unfold getAccurateRipIds.
  destruct (for_each _ _ _) as [[discId1 discId2] |]; [simpl | done].
  destruct (py_index _ _); [simpl | done].
  destruct (getTrackEnd _ _); [simpl | done].
  intros [= <- <-]. split; apply fmt_08x_hex8, land_32_range.
Qed.

Lemma getCDDBDiscId_Ok self (v : Z) :
  cddb_value self = Ok v → getCDDBDiscId self = Ok (fmt_08x v).
Proof. unfold getCDDBDiscId. by intros ->. Qed.
End IdentifierFacts.

Lemma or_1_max (v : Z) : 0 ≤ v → or_1 v = Z.max v 1.
Proof. intros Hv. unfold or_1. destruct (Z.eqb_spec v 0); lia. Qed.

Lemma truncate32_land (x : Z) : Z.land x 4294967295 = truncate32 x.
Proof. unfold truncate32. change 4294967295 with (Z.ones 32). apply Z.land_ones. lia. Qed.

(* ===================================================================== *)
(** * The legacy identifier *)
(* ===================================================================== *)

(** C2: for a non-empty table whose starts are resolved and not negative,
    [getCDDBDiscId] returns ["%08x"] of
    [((n mod 255) << 24) | (totalSeconds << 8) | trackCount], with [n] the
    sum over all tracks of the base-10 digit sum of
    [floor((trackStart(t) + 2*75) / 75)], [totalSeconds] the floor of
    [(trackEnd(last) - trackStart(1)) / 75], and [trackCount] the number of
    tracks. *)
Theorem getCDDBDiscId_value {T Tr : Type} `{TrackTable T Tr}
    (self : T) (st : Tr → Z) (lastTrack : Tr) (lastEnd firstStart : Z) :
  last (tracks self) = Some lastTrack →
  (∀ t, t ∈ tracks self →
        getTrackStart self (number t) = Ok (Some (st t)) ∧ 0 ≤ st t) →
  getTrackEnd self (number lastTrack) = Ok lastEnd →
  getTrackStart self 1 = Ok (Some firstStart) →
  getCDDBDiscId self =
  Ok (fmt_08x (cddb_spec (st <$> tracks self) lastEnd firstStart)).
Proof.
  intros Hlast Hst Hend Hfirst.
  apply getCDDBDiscId_Ok. unfold cddb_value.
  rewrite (cddb_loop self st) by (intros t Ht; by apply Hst). simpl.
  rewrite (py_index_last _ _ Hlast). simpl.
  rewrite Hend. simpl. rewrite Hfirst. simpl.
  unfold cddb_spec. rewrite length_fmap, Z.add_0_l.
  do 4 f_equal. rewrite <- list_fmap_compose.
  f_equal. f_equal. apply list_fmap_ext. intros i t Ht. simpl.
  apply list_elem_of_lookup_2 in Ht. destruct (Hst t Ht) as [_ Hpos].
  apply cddbSum_digit_sum. apply Z.div_pos; unfold FRAMES_PER_SECOND; lia.
Qed.

Lemma getCDDBDiscId_value_witness :
  getCDDBDiscId three_tracks =
  Ok (fmt_08x (cddb_spec (Track.start <$> tracks three_tracks) 100000 0)).
Proof.
  apply (getCDDBDiscId_value three_tracks Track.start
           (Track.mk 3 31116 100000 false) 100000 0).
  - reflexivity.
  - intros t Ht. simpl in Ht.
    apply elem_of_cons in Ht as [-> | Ht]; [split; [reflexivity | simpl; lia] |].
    apply elem_of_cons in Ht as [-> | Ht]; [split; [reflexivity | simpl; lia] |].
    apply elem_of_cons in Ht as [-> | Ht]; [split; [reflexivity | simpl; lia] |].
    by apply elem_of_nil in Ht.
  - reflexivity.
  - reflexivity.
Defined.

Example getCDDBDiscId_three_tracks :
  getCDDBDiscId three_tracks = Ok "18053503".
Proof. vm_compute. reflexivity. Qed.

(** Whenever the value fits in 32 bits and is not negative, the identifier
    is 8 lowercase hexadecimal characters. *)
Lemma getCDDBDiscId_hex8_in_range {T Tr : Type} `{TrackTable T Tr}
    (self : T) (v : Z) :
  cddb_value self = Ok v → 0 ≤ v < 2 ^ 32 →
  ∃ s, getCDDBDiscId self = Ok s ∧ is_hex8 s = true.
Proof.
  intros Hv Hrange. exists (fmt_08x v). split.
  - by apply getCDDBDiscId_Ok.
  - by apply fmt_08x_hex8.
Qed.

(** C1: [getCDDBDiscId] does not wrap.  On one track that runs from frame 0
    to frame 1258291200 the duration is 2^24 seconds, the value is
    0x102000001, and the string returned has 9 characters. *)
Theorem getCDDBDiscId_nine_characters :
  cddb_value long_track = Ok 4328521729 ∧
  getCDDBDiscId long_track = Ok "102000001" ∧
  String.length "102000001" = 9%nat ∧
  is_hex8 "102000001" = false.
Proof. vm_compute. done. Qed.

(* ===================================================================== *)
(** * The accuracy identifiers *)
(* ===================================================================== *)

(** C3: for a non-empty table whose audio tracks have resolved starts that
    are not negative, [getAccurateRipIds] returns the pair of
    [id1 = sum of starts of audio tracks + (trackEnd(last) + 1)] and
    [id2 = sum of max(start, 1) * number over audio tracks
           + (trackEnd(last) + 1) * (audio track count + 1)],
    each truncated to 32 bits and printed as exactly 8 lowercase
    hexadecimal digits; the last track is the last one overall. *)
Theorem getAccurateRipIds_value {T Tr : Type} `{TrackTable T Tr}
    (self : T) (st : Tr → Z) (lastTrack : Tr) (lastEnd : Z) :
  last (tracks self) = Some lastTrack →
  (∀ t, t ∈ tracks self → audio t = true →
        getTrackStart self (number t) = Ok (Some (st t)) ∧ 0 ≤ st t) →
  getTrackEnd self (number lastTrack) = Ok lastEnd →
  let audioTracks :=
    (λ t, (st t, number t)) <$> filter (λ t, audio t = true) (tracks self) in
  let id1 := fmt_08x (truncate32 (ar_id1_spec audioTracks lastEnd)) in
  let id2 := fmt_08x (truncate32 (ar_id2_spec audioTracks lastEnd)) in
  getAccurateRipIds self = Ok (id1, id2) ∧
  is_hex8 id1 = true ∧ is_hex8 id2 = true.
Proof.
  intros Hlast Hst Hend audioTracks id1 id2.
  assert (getAccurateRipIds self = Ok (id1, id2)) as Hids.
  { unfold getAccurateRipIds.
    rewrite (ar_loop self st) by (intros t Ht Ha; by apply Hst). simpl.
    rewrite (py_index_last _ _ Hlast). simpl. rewrite Hend. simpl.
    rewrite !truncate32_land. unfold id1, id2, ar_id1_spec, ar_id2_spec, audioTracks.
    rewrite length_fmap, <- !list_fmap_compose, !Z.add_0_l.
    unfold getAudioTracks. do 6 f_equal.
    apply list_fmap_ext. intros i t Ht. simpl.
    apply list_elem_of_lookup_2, list_elem_of_filter in Ht as [Ha Ht].
    destruct (Hst t Ht Ha) as [_ Hpos]. by rewrite or_1_max. }
  split; [exact Hids |]. by apply getAccurateRipIds_hex8 in Hids.
Qed.

Lemma getAccurateRipIds_value_witness :
  getAccurateRipIds three_tracks = Ok ("0001c352", "00050d46").
Proof.
  destruct (getAccurateRipIds_value three_tracks Track.start
              (Track.mk 3 31116 100000 false) 100000) as [Hids _].
  - reflexivity.
  - intros t Ht Ha. simpl in Ht.
    apply elem_of_cons in Ht as [-> | Ht]; [split; [reflexivity | simpl; lia] |].
    apply elem_of_cons in Ht as [-> | Ht]; [split; [reflexivity | simpl; lia] |].
    apply elem_of_cons in Ht as [-> | Ht]; [discriminate Ha |].
    by apply elem_of_nil in Ht.
  - reflexivity.
  - rewrite Hids. vm_compute. reflexivity.
Defined.

(** C4: in the loop of [getAccurateRipIds] an audio track that starts at
    frame 0 adds [1 * number] to the second accumulator, not 0; an audio
    track with a positive start adds [start * number]. *)
Theorem ar_step_zero_start {T Tr : Type} `{TrackTable T Tr}
    (self : T) (track : Tr) (start discId1 discId2 : Z) :
  audio track = true →
  getTrackStart self (number track) = Ok (Some start) →
  (start = 0 →
   ar_step self (discId1, discId2) track =
   Ok (discId1, discId2 + 1 * number track)) ∧
  (0 < start →
   ar_step self (discId1, discId2) track =
   Ok (discId1 + start, discId2 + start * number track)).
Proof.
  intros Haudio Hstart. unfold ar_step. rewrite Haudio, Hstart. simpl.
  split.
  - intros ->. by rewrite Z.add_0_r.
  - intros Hpos. unfold or_1. destruct (Z.eqb_spec start 0); [lia | done].
Qed.

Lemma ar_step_zero_start_witness :
  ar_step three_tracks (0, 0) (Track.mk 1 0 15536 true) = Ok (0, 0 + 1 * 1) ∧
  ar_step three_tracks (0, 1) (Track.mk 2 15537 31115 true)
  = Ok (0 + 15537, 1 + 15537 * 2).
Proof.
  split.
  - refine (proj1 (ar_step_zero_start three_tracks (Track.mk 1 0 15536 true)
                     0 0 0 _ _) _); reflexivity.
  - refine (proj2 (ar_step_zero_start three_tracks (Track.mk 2 15537 31115 true)
                     15537 0 1 _ _) _); [reflexivity | reflexivity | lia].
Defined.

(* ===================================================================== *)
(** * The verification URL *)
(* ===================================================================== *)

(** A string of 8 characters has a last, a second-to-last and a
    third-to-last one, and [s[-1]], [s[-2]], [s[-3]] are these. *)
Lemma str_index_from_end (s : string) (k : nat) :
  (k < String.length s)%nat →
  ∃ c, nth_last s k = Some c ∧ str_index s (- Z.of_nat (S k)) = Ok (char c).
Proof.
  intros Hk. unfold nth_last, str_index.
  destruct (reverse (String.list_ascii_of_string s) !! k) as [c |] eqn:Hc.
  - exists c. split; [done |]. by rewrite (py_index_from_end _ _ _ Hc).
  - apply lookup_ge_None in Hc. rewrite length_reverse in Hc.
    rewrite <- (String.string_of_list_ascii_of_string s) in Hk.
    rewrite length_string_of_list_ascii in Hk. lia.
Qed.

Lemma is_hex8_length (s : string) : is_hex8 s = true → String.length s = 8%nat.
Proof.
  unfold is_hex8. intros Hs. apply andb_prop in Hs as [Hs _]. by apply Nat.eqb_eq.
Qed.

(** C7: when the two identifier queries succeed, [getAccurateRipURL]
    returns the fixed prefix, the last, second-to-last and third-to-last
    characters of [id1] as three directories, then
    [dBAR-<count, 3 digits>-<id1>-<id2>-<cddbId>.bin]. *)
Theorem getAccurateRipURL_format {T Tr : Type} `{TrackTable T Tr}
    (self : T) (id1 id2 cddbId : string) :
  getAccurateRipIds self = Ok (id1, id2) →
  getCDDBDiscId self = Ok cddbId →
  ∃ d1 d2 d3 : ascii,
    nth_last id1 0 = Some d1 ∧ nth_last id1 1 = Some d2 ∧
    nth_last id1 2 = Some d3 ∧
    getAccurateRipURL self =
    Ok ("http://www.accuraterip.com/accuraterip/" +:+
        char d1 +:+ "/" +:+ char d2 +:+ "/" +:+ char d3 +:+ "/dBAR-" +:+
        fmt_03d (Z.of_nat (length (tracks self))) +:+
        "-" +:+ id1 +:+ "-" +:+ id2 +:+ "-" +:+ cddbId +:+ ".bin").
Proof.
  intros Hids Hcddb.
  destruct (getAccurateRipIds_hex8 self id1 id2 Hids) as [Hlen _].
  apply is_hex8_length in Hlen.
  destruct (str_index_from_end id1 0) as (d1 & Hd1 & Hs1); [lia |].
  destruct (str_index_from_end id1 1) as (d2 & Hd2 & Hs2); [lia |].
  destruct (str_index_from_end id1 2) as (d3 & Hd3 & Hs3); [lia |].
  exists d1, d2, d3. repeat split; try done.
  unfold getAccurateRipURL. rewrite Hids. simpl bind.
  change (-1) with (- Z.of_nat 1). rewrite Hs1. simpl bind.
  change (-2) with (- Z.of_nat 2). rewrite Hs2. simpl bind.
  change (-3) with (- Z.of_nat 3). rewrite Hs3. simpl bind.
  rewrite Hcddb. simpl bind.
  rewrite fmt_p3d_03d by lia. reflexivity.
Qed.

Lemma getAccurateRipURL_format_witness :
  getAccurateRipURL three_tracks =
  Ok "http://www.accuraterip.com/accuraterip/2/5/3/dBAR-003-0001c352-00050d46-18053503.bin".
Proof.
  destruct (getAccurateRipURL_format three_tracks "0001c352" "00050d46" "18053503")
    as (d1 & d2 & d3 & Hd1 & Hd2 & Hd3 & Hurl).
  - vm_compute. reflexivity.
  - vm_compute. reflexivity.
  - rewrite Hurl. vm_compute in Hd1, Hd2, Hd3.
    injection Hd1 as <-. injection Hd2 as <-. injection Hd3 as <-.
    vm_compute. reflexivity.
Defined.

(* ===================================================================== *)
(** * Identifier queries on a table without tracks *)
(* ===================================================================== *)

(** C9: without tracks both identifier queries raise [IndexError], at
    [self.tracks[-1]], and return no string; with at least one track that
    lookup succeeds, and both queries return once the boundary queries
    they issue do. *)
Theorem identifiers_need_a_track {T Tr : Type} `{TrackTable T Tr}
    (self : T) (st : Tr → Z) :
  (tracks self = [] →
   getCDDBDiscId self = Raise IndexError ∧
   getAccurateRipIds self = Raise IndexError) ∧
  (tracks self ≠ [] →
   (∃ lastTrack, py_index (tracks self) (-1) = Ok lastTrack) ∧
   ((∀ t, t ∈ tracks self → getTrackStart self (number t) = Ok (Some (st t))) →
    (∃ s, getTrackStart self 1 = Ok (Some s)) →
    (∀ t, t ∈ tracks self → ∃ e, getTrackEnd self (number t) = Ok e) →
    (∃ s, getCDDBDiscId self = Ok s) ∧
    (∃ ids, getAccurateRipIds self = Ok ids))).
Proof.
  split.
  - intros Hnil. unfold getCDDBDiscId, cddb_value, getAccurateRipIds.
    rewrite Hnil. simpl. done.
  - intros Hne. apply last_is_Some in Hne as [lastTrack Hlast].
    pose proof (py_index_last _ _ Hlast) as Hidx.
    split; [by exists lastTrack |].
    intros Hst [s Hfirst] Hend.
    destruct (Hend lastTrack) as [e He].
    { by eapply py_index_Ok_elem. }
    split.
    + eexists. apply getCDDBDiscId_Ok. unfold cddb_value.
      rewrite (cddb_loop self st) by done. simpl.
      rewrite Hidx. simpl. rewrite He. simpl. rewrite Hfirst. simpl. reflexivity.
    + eexists. unfold getAccurateRipIds.
      rewrite (ar_loop self st) by (intros t Ht _; by apply Hst). simpl.
      rewrite Hidx. simpl. rewrite He. simpl. reflexivity.
Qed.

Lemma identifiers_need_a_track_witness :
  (getCDDBDiscId (Table.mk []) = Raise IndexError ∧
   getAccurateRipIds (Table.mk []) = Raise IndexError) ∧
  (∃ s, getCDDBDiscId three_tracks = Ok s) ∧
  (∃ ids, getAccurateRipIds three_tracks = Ok ids).
Proof.
  split.
  - apply (proj1 (identifiers_need_a_track (Table.mk []) Track.start)).
    reflexivity.
  - apply (proj2 (identifiers_need_a_track three_tracks Track.start)).
    + discriminate.
    + intros t Ht. simpl in Ht.
      apply elem_of_cons in Ht as [-> | Ht]; [reflexivity |].
      apply elem_of_cons in Ht as [-> | Ht]; [reflexivity |].
      apply elem_of_cons in Ht as [-> | Ht]; [reflexivity |].
      by apply elem_of_nil in Ht.
    + exists 0. reflexivity.
    + intros t Ht. simpl in Ht.
      apply elem_of_cons in Ht as [-> | Ht]; [by eexists |].
      apply elem_of_cons in Ht as [-> | Ht]; [by eexists |].
      apply elem_of_cons in Ht as [-> | Ht]; [by eexists |].
      by apply elem_of_nil in Ht.
Defined.

(* ===================================================================== *)
(** * Boundary queries *)
(* ===================================================================== *)

(** C8: in both tables, when the start and the end of track [n] are
    resolved to [s] and [e], its length is [e - s + 1]. *)
Theorem getTrackLength_end_start (tb : Table.t) (it : IndexTable.t) (n s e : Z) :
  (Table.getTrackStart tb n = Ok s → Table.getTrackEnd tb n = Ok e →
   Table.getTrackLength tb n = Ok (e - s + 1)) ∧
  (IndexTable.getTrackStart it n = Ok (Some s) →
   IndexTable.getTrackEnd it n = Ok e →
   IndexTable.getTrackLength it n = Ok (e - s + 1)).
Proof.
  split.
  - unfold Table.getTrackStart, Table.getTrackEnd, Table.getTrackLength.
    destruct (py_index _ _) as [track |]; simpl; [| done].
    by intros [= <-] [= <-].
  - unfold IndexTable.getTrackLength. intros Hstart Hend.
    pose proof Hstart as Htrack. unfold IndexTable.getTrackStart in Htrack.
    destruct (py_index _ _) as [track |]; simpl; [| done].
    by rewrite Hend, Hstart.
Qed.

Lemma getTrackLength_end_start_witness :
  Table.getTrackLength three_tracks 2 = Ok (31115 - 15537 + 1) ∧
  IndexTable.getTrackLength with_leadout 2 = Ok (31115 - 15537 + 1).
Proof.
  split.
  - apply (proj1 (getTrackLength_end_start three_tracks with_leadout 2 15537 31115));
      reflexivity.
  - apply (proj2 (getTrackLength_end_start three_tracks with_leadout 2 15537 31115));
      reflexivity.
Defined.

(** C10: with the leadout unset [getTrackEnd] raises for every track
    number: [self.leadout - 1] is evaluated first. *)
Theorem getTrackEnd_unset_leadout (it : IndexTable.t) (n : Z) :
  IndexTable.leadout it = None → IndexTable.getTrackEnd it n = Raise TypeError.
Proof. intros Hnone. unfold IndexTable.getTrackEnd. by rewrite Hnone. Qed.

(** Track 1 of [no_leadout] is followed by a track whose index 1 is there. *)
Lemma getTrackEnd_unset_leadout_witness :
  (∃ next i, py_index (IndexTable.tracks no_leadout) 1 = Ok next ∧
             ITTrack.getIndex next 1 = Ok i ∧ Index.absolute i = Some 15537) ∧
  IndexTable.getTrackEnd no_leadout 1 = Raise TypeError.
Proof.
  split.
  - eexists _, _. repeat split; vm_compute; reflexivity.
  - apply (getTrackEnd_unset_leadout no_leadout 1). reflexivity.
Defined.

(** With the leadout set the same query answers. *)
Example getTrackEnd_with_leadout :
  IndexTable.getTrackEnd with_leadout 1 = Ok 15536 ∧
  IndexTable.getTrackEnd with_leadout 2 = Ok 31115.
Proof. vm_compute. done. Qed.

(** C6, as the code has it: the length of a track whose end is unknown is
    no number; [getTrackLength] raises [TypeError] when the leadout is
    unset, and [KeyError] when the leadout is set and the next track has no
    index 1. *)
Theorem getTrackLength_unknown_end (it : IndexTable.t) (n : Z) (track : ITTrack.t) :
  py_index (IndexTable.tracks it) (n - 1) = Ok track →
  end_unknown it n →
  IndexTable.getTrackLength it n =
  Raise (match IndexTable.leadout it with
         | None => TypeError
         | Some _ => KeyError
         end).
Proof.
  intros Htrack Hunknown. unfold IndexTable.getTrackLength.
  rewrite Htrack. simpl.
  destruct (IndexTable.leadout it) as [l |] eqn:Hl.
  - destruct Hunknown as [Hnone | (Hn & next & Hnext & Hmissing)]; [congruence |].
    unfold IndexTable.getTrackEnd. rewrite Hl. simpl.
    destruct (Z.ltb_spec n (Z.of_nat (length (IndexTable.tracks it)))); [| lia].
    rewrite Hnext. simpl. unfold ITTrack.getIndex, dict_get. by rewrite Hmissing.
  - unfold IndexTable.getTrackEnd. by rewrite Hl.
Qed.

Lemma getTrackLength_unknown_end_witness :
  IndexTable.getTrackLength no_leadout 2 = Raise TypeError ∧
  IndexTable.getTrackLength missing_index 1 = Raise KeyError.
Proof.
  split.
  - refine (getTrackLength_unknown_end no_leadout 2 _ _ _).
    + vm_compute. reflexivity.
    + left. reflexivity.
  - refine (getTrackLength_unknown_end missing_index 1 _ _ _).
    + vm_compute. reflexivity.
    + right. split; [simpl; lia |]. eexists. split; vm_compute; reflexivity.
Defined.

(** C6, as stated, fails: the last track of [no_leadout] has an unknown
    end, and asking for its length raises [TypeError]; the outcome is the
    failure of [None - 1], not a result of its own kind. *)
Lemma unknown_length_not_distinguished :
  end_unknown no_leadout 2 ∧
  IndexTable.getTrackLength no_leadout 2 = Raise TypeError ∧
  ¬ (∀ it n, end_unknown it n →
             (∀ z, IndexTable.getTrackLength it n ≠ Ok z) ∧
             (∀ e, IndexTable.getTrackLength it n ≠ Raise e)).
Proof.
  assert (end_unknown no_leadout 2) as Hunknown by (left; reflexivity).
  assert (IndexTable.getTrackLength no_leadout 2 = Raise TypeError) as Hraise
    by (vm_compute; reflexivity).
  repeat split; [done.. |].
  intros Hclaim. destruct (Hclaim no_leadout 2 Hunknown) as [_ Hno].
  by apply (Hno TypeError).
Qed.

(* ===================================================================== *)
(** * The cue sheet *)
(* ===================================================================== *)

Example cue_test_write :
  IndexTable.cue test_write =
  Ok (join newline
        [IndexTable.file_line (Some "track01.wav");
         "  TRACK 01 AUDIO";
         "    INDEX 01 00:00:00";
         "  TRACK 02 AUDIO";
         "    INDEX 00 00:13:25";
         IndexTable.file_line (Some "track02.wav");
         "    INDEX 01 00:00:00";
         EmptyString]).
Proof. vm_compute. reflexivity. Qed.

(** C5: the path of an index is compared with the path of the first FILE
    line, which [currentPath] keeps for the whole run.  Two consecutive
    indexes in a second file get a FILE line each, and an index back in the
    first file gets none although the last FILE line names another file. *)
Theorem cue_compares_with_first_path :
  IndexTable.cue two_files =
  Ok (join newline
        [IndexTable.file_line (Some "a.wav");
         "  TRACK 01 AUDIO";
         "    INDEX 01 00:00:00";
         "  TRACK 02 AUDIO";
         IndexTable.file_line (Some "b.wav");
         "    INDEX 00 00:00:00";
         IndexTable.file_line (Some "b.wav");
         "    INDEX 01 00:02:00";
         EmptyString]) ∧
  IndexTable.cue back_to_first_file =
  Ok (join newline
        [IndexTable.file_line (Some "a.wav");
         "  TRACK 01 AUDIO";
         "    INDEX 01 00:00:00";
         "  TRACK 02 AUDIO";
         IndexTable.file_line (Some "b.wav");
         "    INDEX 00 00:00:00";
         "    INDEX 01 00:02:00";
         EmptyString]).
Proof. split; vm_compute; reflexivity. Qed.

(** What one iteration of the inner loop appends: the FILE line depends on
    [currentPath] alone, not on the lines written so far. *)
Lemma cue_index_lines (currentPath : option string) (track : ITTrack.t)
    (lines : list string) (number : Z) (index : Index.t) (msf : string) :
  ITTrack.indexes track !! number = Some index →
  framesToMSF (Index.relative index) = Ok msf →
  IndexTable.cue_index currentPath track lines number =
  Ok (lines
      ++ (if decide (Index.path index = currentPath) then []
          else [IndexTable.file_line (Index.path index)])
      ++ ["    INDEX " +:+ fmt_02d number +:+ " " +:+ msf]).
Proof.
  intros Hindex Hmsf. unfold IndexTable.cue_index, dict_get.
  rewrite Hindex. simpl. rewrite Hmsf. simpl.
  destruct (decide (Index.path index = currentPath)) as [Heq | Hne].
  - rewrite decide_False by (intros Hne; by apply Hne). done.
  - rewrite decide_True by done. by rewrite <- app_assoc.
Qed.




(** A property of the loop variables that every iteration keeps holds
    when the loop is left. *)
Lemma for_each_invariant {A S : Type} (P : S → Prop) (body : S → A → result S) :
  (∀ s x s', P s → body s x = Ok s' → P s') →
  ∀ l s s', P s → for_each body l s = Ok s' → P s'.
Proof.
  intros Hbody l. induction l as [| x l IH]; intros s s' Hs; simpl.
  - by intros [= <-].
  - destruct (body s x) as [s1 |] eqn:Hs1; simpl; [| done].
    apply IH. by eapply Hbody.
Qed.


(* ===================================================================== *)
(** * Further properties of the module *)
(* ===================================================================== *)

(* ===================================================================== *)
(** * Indexing, once more *)
(* ===================================================================== *)

(** Indexing raises nothing but [IndexError]. *)
Lemma py_index_raises {A : Type} (l : list A) (i : Z) (e : pyexc) :
  py_index l i = Raise e → e = IndexError.
Proof.
  unfold py_index. destruct (_ || _); [by intros [= <-] |].
  destruct (l !! _); [done | by intros [= <-]].
Qed.

(** The indexes that [l[i]] accepts are those from [-len(l)] to
    [len(l) - 1]. *)
Lemma py_index_Ok_iff {A : Type} (l : list A) (i : Z) :
  (∃ x, py_index l i = Ok x) ↔ - Z.of_nat (length l) ≤ i < Z.of_nat (length l).
Proof.
  unfold py_index. split.
  - intros [x Hx].
    destruct (Z.ltb_spec i 0);
      destruct (Z.ltb_spec (if decide (i < 0) then i + Z.of_nat (length l) else i) 0);
      destruct (decide (i < 0)); try lia.
    + destruct (Z.ltb_spec (i + Z.of_nat (length l)) 0); [done |].
      destruct (Z.leb_spec (Z.of_nat (length l)) (i + Z.of_nat (length l)));
        [done | lia].
    + destruct (Z.ltb_spec i 0); [lia |].
      destruct (Z.leb_spec (Z.of_nat (length l)) i); [done | lia].
  - intros Hi.
    destruct (Z.ltb_spec i 0).
    + destruct (Z.ltb_spec (i + Z.of_nat (length l)) 0); [lia |].
      destruct (Z.leb_spec (Z.of_nat (length l)) (i + Z.of_nat (length l))); [lia |].
      simpl. destruct (l !! _) as [x |] eqn:Hx; [by exists x |].
      apply lookup_ge_None in Hx. lia.
    + destruct (Z.ltb_spec i 0); [lia |].
      destruct (Z.leb_spec (Z.of_nat (length l)) i); [lia |].
      simpl. destruct (l !! _) as [x |] eqn:Hx; [by exists x |].
      apply lookup_ge_None in Hx. lia.
Qed.

Lemma py_index_out_of_range {A : Type} (l : list A) (i : Z) :
  ¬ (- Z.of_nat (length l) ≤ i < Z.of_nat (length l)) →
  py_index l i = Raise IndexError.
Proof.
  intros Hi. destruct (py_index l i) as [x | e] eqn:Hx.
  - destruct Hi. apply py_index_Ok_iff. by exists x.
  - by rewrite (py_index_raises _ _ _ Hx).
Qed.

(** An index that is not negative reads the list from the front. *)
Lemma py_index_nonneg_Ok {A : Type} (l : list A) (i : Z) (x : A) :
  0 ≤ i → py_index l i = Ok x → l !! Z.to_nat i = Some x.
Proof.
  intros Hi. unfold py_index.
  destruct (Z.ltb_spec i 0); [lia |].
  destruct (_ || _); [done |].
  destruct (l !! _); [by intros [= <-] | done].
Qed.

(* ===================================================================== *)
(** * Track numbers of the flat table *)
(* ===================================================================== *)

(** X10: Track numbers 1 to [len(tracks)] name the tracks in order: the three
    boundary queries read the fields of the track at place [number - 1]. *)
Theorem Table_queries_in_range (tb : Table.t) (n : Z) :
  1 ≤ n ≤ Z.of_nat (length (Table.tracks tb)) →
  ∃ track, Table.tracks tb !! Z.to_nat (n - 1) = Some track ∧
           Table.getTrackStart tb n = Ok (Track.start track) ∧
           Table.getTrackEnd tb n = Ok (Track.end_ track) ∧
           Table.getTrackLength tb n
           = Ok (Track.end_ track - Track.start track + 1).
Proof.
  intros Hn.
  destruct (proj2 (py_index_Ok_iff (Table.tracks tb) (n - 1))) as [track Htrack];
    [lia |].
  exists track. split; [apply py_index_nonneg_Ok; [lia | done] |].
  unfold Table.getTrackStart, Table.getTrackEnd, Table.getTrackLength.
  by rewrite Htrack.
Qed.

Lemma Table_queries_in_range_witness :
  ∃ track, Table.tracks three_tracks !! Z.to_nat (2 - 1) = Some track ∧
           Table.getTrackStart three_tracks 2 = Ok (Track.start track) ∧
           Table.getTrackEnd three_tracks 2 = Ok (Track.end_ track) ∧
           Table.getTrackLength three_tracks 2
           = Ok (Track.end_ track - Track.start track + 1).
Proof. apply (Table_queries_in_range three_tracks 2). simpl. lia. Defined.

(** X11: Track numbers are not checked.  Number 0 names the last track and
    negative numbers down to [1 - len(tracks)] count further back; any
    other number outside [1 .. len(tracks)] raises [IndexError] in all
    three queries. *)
Theorem Table_queries_outside (tb : Table.t) (n : Z) :
  let len := Z.of_nat (length (Table.tracks tb)) in
  (- len < n ≤ 0 →
   ∃ track, reverse (Table.tracks tb) !! Z.to_nat (- n) = Some track ∧
            Table.getTrackStart tb n = Ok (Track.start track) ∧
            Table.getTrackEnd tb n = Ok (Track.end_ track) ∧
            Table.getTrackLength tb n
            = Ok (Track.end_ track - Track.start track + 1)) ∧
  (n ≤ - len ∨ len < n →
   Table.getTrackStart tb n = Raise IndexError ∧
   Table.getTrackEnd tb n = Raise IndexError ∧
   Table.getTrackLength tb n = Raise IndexError).
Proof.
  intros len. split.
  - intros Hn.
    destruct (reverse (Table.tracks tb) !! Z.to_nat (- n)) as [track |] eqn:Hrev.
    + exists track. split; [done |].
      apply py_index_from_end in Hrev.
      replace (- Z.of_nat (S (Z.to_nat (- n)))) with (n - 1) in Hrev by lia.
      unfold Table.getTrackStart, Table.getTrackEnd, Table.getTrackLength.
      by rewrite Hrev.
    + apply lookup_ge_None in Hrev. rewrite length_reverse in Hrev.
      unfold len in Hn. lia.
  - intros Hn.
    unfold Table.getTrackStart, Table.getTrackEnd, Table.getTrackLength.
    rewrite py_index_out_of_range by (unfold len in Hn; lia). done.
Qed.

Lemma Table_queries_outside_witness :
  (∃ track, reverse (Table.tracks three_tracks) !! Z.to_nat (- 0) = Some track ∧
            Table.getTrackStart three_tracks 0 = Ok (Track.start track) ∧
            Table.getTrackEnd three_tracks 0 = Ok (Track.end_ track) ∧
            Table.getTrackLength three_tracks 0
            = Ok (Track.end_ track - Track.start track + 1)) ∧
  (Table.getTrackStart three_tracks 4 = Raise IndexError ∧
   Table.getTrackEnd three_tracks 4 = Raise IndexError ∧
   Table.getTrackLength three_tracks 4 = Raise IndexError).
Proof.
  split.
  - apply (proj1 (Table_queries_outside three_tracks 0)). simpl. lia.
  - apply (proj2 (Table_queries_outside three_tracks 4)). simpl. lia.
Defined.

Example Table_track_zero_is_last :
  Table.getTrackStart three_tracks 0 = Ok 31116.
Proof. reflexivity. Qed.

(* ===================================================================== *)
(** * Boundaries of the index table *)
(* ===================================================================== *)

(** X12: With the leadout set, [getTrackEnd] answers [leadout - 1] for the last
    track and as well for every larger number: the number is compared
    with [len(tracks)] and never looked up. *)
Theorem getTrackEnd_from_last_on (it : IndexTable.t) (n leadout : Z) :
  IndexTable.leadout it = Some leadout →
  Z.of_nat (length (IndexTable.tracks it)) ≤ n →
  IndexTable.getTrackEnd it n = Ok (leadout - 1).
Proof.
  intros Hl Hn. unfold IndexTable.getTrackEnd. rewrite Hl. simpl.
  destruct (Z.ltb_spec n (Z.of_nat (length (IndexTable.tracks it)))); [lia | done].
Qed.

Lemma getTrackEnd_from_last_on_witness :
  IndexTable.getTrackEnd with_leadout 2 = Ok (31116 - 1) ∧
  IndexTable.getTrackEnd with_leadout 7 = Ok (31116 - 1).
Proof.
  split.
  - apply (getTrackEnd_from_last_on with_leadout 2 31116); [reflexivity | simpl; lia].
  - apply (getTrackEnd_from_last_on with_leadout 7 31116); [reflexivity | simpl; lia].
Defined.

(** X13: With the leadout set, a track that is not the last one ends one frame
    before the start that [getTrackStart] reports for the next number. *)
Theorem getTrackEnd_before_next_start (it : IndexTable.t) (n leadout start : Z) :
  IndexTable.leadout it = Some leadout →
  n < Z.of_nat (length (IndexTable.tracks it)) →
  IndexTable.getTrackStart it (n + 1) = Ok (Some start) →
  IndexTable.getTrackEnd it n = Ok (start - 1).
Proof.
  intros Hl Hn. unfold IndexTable.getTrackStart, IndexTable.getTrackEnd.
  rewrite Hl. simpl.
  destruct (Z.ltb_spec n (Z.of_nat (length (IndexTable.tracks it)))); [| lia].
  replace (n + 1 - 1) with n by lia.
  destruct (py_index _ _) as [next |]; simpl; [| done].
  destruct (ITTrack.getIndex _ _) as [i |]; simpl; [| done].
  by intros [= ->].
Qed.

Lemma getTrackEnd_before_next_start_witness :
  IndexTable.getTrackEnd with_leadout 1 = Ok (15537 - 1).
Proof.
  apply (getTrackEnd_before_next_start with_leadout 1 31116 15537);
    [reflexivity | simpl; lia | reflexivity].
Defined.

(** X14: [getTrackStart] of the index table fails in two ways only:
    [IndexError] for a number outside [1 - len(tracks) .. len(tracks)],
    [KeyError] for a track without index 1.  An index 1 whose absolute
    offset is [None] is returned as [None]. *)
Theorem IndexTable_getTrackStart_failures (it : IndexTable.t) (n : Z) (e : pyexc) :
  IndexTable.getTrackStart it n = Raise e →
  (e = IndexError ∧
   (n ≤ - Z.of_nat (length (IndexTable.tracks it)) ∨
    Z.of_nat (length (IndexTable.tracks it)) < n)) ∨
  (e = KeyError ∧ ∃ track, py_index (IndexTable.tracks it) (n - 1) = Ok track ∧
                           ITTrack.indexes track !! 1 = None).
Proof.
  unfold IndexTable.getTrackStart. intros Hraise.
  destruct (py_index (IndexTable.tracks it) (n - 1)) as [track | e'] eqn:Htrack;
    simpl in Hraise.
  - right. unfold ITTrack.getIndex, dict_get in Hraise.
    destruct (ITTrack.indexes track !! 1) eqn:Hindex; simpl in Hraise; [done |].
    injection Hraise as <-. split; [done |]. by exists track.
  - left. injection Hraise as <-. split; [by eapply py_index_raises |].
    set (len := Z.of_nat (length (IndexTable.tracks it))).
    destruct (decide (- len < n ≤ len)) as [Hin | Hout]; [| lia].
    destruct (proj2 (py_index_Ok_iff (IndexTable.tracks it) (n - 1))) as [x Hx];
      [unfold len in Hin; lia | congruence].
Qed.

Lemma IndexTable_getTrackStart_failures_witness :
  (IndexError = IndexError ∧ (3 ≤ - 2 ∨ 2 < 3)) ∨
  (IndexError = KeyError ∧
   ∃ track, py_index (IndexTable.tracks missing_index) (3 - 1) = Ok track ∧
            ITTrack.indexes track !! 1 = None).
Proof.
  apply (IndexTable_getTrackStart_failures missing_index 3 IndexError).
  reflexivity.
Defined.

Example getTrackStart_missing_index :
  IndexTable.getTrackStart missing_index 2 = Raise KeyError.
Proof. reflexivity. Qed.

Lemma Zsum_app (l1 l2 : list Z) : Zsum (l1 ++ l2) = Zsum l1 + Zsum l2.
Proof.
  induction l1 as [| x l1 IH]; [done |].
  change (Zsum (x :: (l1 ++ l2)) = Zsum (x :: l1) + Zsum l2).
  rewrite !Zsum_cons, IH. lia.
Qed.

(** A sum of consecutive differences collapses to the difference of its
    ends. *)
Lemma Zsum_telescope (c : nat → Z) (n : nat) :
  Zsum ((λ k, c k - c (k - 1)%nat) <$> seq 1 n) = c n - c 0%nat.
Proof.
  induction n as [| n IH]; [simpl; unfold Zsum; simpl; lia |].
  rewrite seq_S, fmap_app, Zsum_app, IH.
  change (Zsum ((λ k, c k - c (k - 1)%nat) <$> [(1 + n)%nat]))
    with (c (1 + n)%nat - c (1 + n - 1)%nat + 0).
  replace (1 + n - 1)%nat with n by lia. simpl. lia.
Qed.

Section IndexTableLengths.
Variables (it : IndexTable.t) (a : nat → Z) (leadout : Z).
Hypothesis Hleadout : IndexTable.leadout it = Some leadout.
Hypothesis Hstarts :
  ∀ i track, IndexTable.tracks it !! i = Some track →
             ∃ idx, ITTrack.indexes track !! 1 = Some idx ∧
                    Index.absolute idx = Some (a i).

(** Where track [n] ends: before the next start, or before the leadout. *)
Local Abbreviation next_start :=
  (following_start (length (IndexTable.tracks it)) a leadout).

Lemma IndexTable_start_resolved (i : nat) :
  (i < length (IndexTable.tracks it))%nat →
  IndexTable.getTrackStart it (Z.of_nat (S i)) = Ok (Some (a i)).
Proof.
  intros Hi. destruct (lookup_lt_is_Some_2 _ _ Hi) as [track Htrack].
  destruct (Hstarts i track Htrack) as (idx & Hidx & Habs).
  unfold IndexTable.getTrackStart.
  replace (Z.of_nat (S i) - 1) with (Z.of_nat i) by lia.
  rewrite (py_index_nonneg _ _ _ Htrack). simpl.
  unfold ITTrack.getIndex, dict_get. rewrite Hidx. simpl. by rewrite Habs.
Qed.

Lemma IndexTable_length_resolved (n : nat) :
  (1 ≤ n ≤ length (IndexTable.tracks it))%nat →
  IndexTable.getTrackLength it (Z.of_nat n)
  = Ok (next_start n - next_start (n - 1)).
Proof.
  intros Hn. destruct n as [| i]; [lia |].
  assert (i < length (IndexTable.tracks it))%nat as Hi by lia.
  pose proof (IndexTable_start_resolved i Hi) as Hstart.
  unfold IndexTable.getTrackLength.
  pose proof Hstart as Htrack. unfold IndexTable.getTrackStart in Htrack.
  destruct (py_index _ _) as [track |]; simpl; [| done]. clear Htrack.
  assert (IndexTable.getTrackEnd it (Z.of_nat (S i)) = Ok (next_start (S i) - 1))
    as ->.
  { unfold following_start. destruct (Nat.ltb_spec (S i) (length (IndexTable.tracks it))).
    - unfold IndexTable.getTrackEnd. rewrite Hleadout. simpl.
      destruct (Z.ltb_spec (Z.of_nat (S i))
                  (Z.of_nat (length (IndexTable.tracks it)))); [| lia].
      pose proof (IndexTable_start_resolved (S i) ltac:(lia)) as Hnext.
      unfold IndexTable.getTrackStart in Hnext.
      replace (Z.of_nat (S (S i)) - 1) with (Z.of_nat (S i)) in Hnext by lia.
      destruct (py_index _ _) as [next |]; simpl in *; [| done].
      destruct (ITTrack.getIndex _ _) as [idx |]; simpl in *; [| done].
      injection Hnext as ->. done.
    - unfold IndexTable.getTrackEnd. rewrite Hleadout. simpl.
      destruct (Z.ltb_spec (Z.of_nat (S i))
                  (Z.of_nat (length (IndexTable.tracks it)))); [lia | done]. }
  simpl. rewrite Hstart. simpl. f_equal.
  generalize (next_start (S i)). intros x.
  unfold following_start. simpl. rewrite Nat.sub_0_r.
  destruct (Nat.ltb_spec i (length (IndexTable.tracks it))); lia.
Qed.

(** X15: The lengths of all tracks of a resolved index table add up to the
    distance from the start of track 1 to the leadout. *)
Theorem IndexTable_lengths_sum :
  IndexTable.tracks it ≠ [] →
  ∃ lens : list Z,
    (λ n, IndexTable.getTrackLength it (Z.of_nat n))
      <$> seq 1 (length (IndexTable.tracks it))
    = Ok <$> lens ∧
    Zsum lens = leadout - a 0%nat.
Proof.
  intros Hne.
  exists ((λ n, next_start n - next_start (n - 1))
            <$> seq 1 (length (IndexTable.tracks it))).
  split.
  - rewrite <- list_fmap_compose. apply list_fmap_ext.
    intros i n Hn. apply lookup_seq in Hn as [-> Hi]. simpl.
    apply IndexTable_length_resolved. lia.
  - rewrite Zsum_telescope. unfold following_start.
    rewrite Nat.ltb_irrefl.
    destruct (Nat.ltb_spec 0 (length (IndexTable.tracks it))); [done |].
    destruct (IndexTable.tracks it); [done | simpl in *; lia].
Qed.
End IndexTableLengths.

Lemma IndexTable_lengths_sum_witness :
  ∃ lens : list Z,
    (λ n, IndexTable.getTrackLength with_leadout (Z.of_nat n))
      <$> seq 1 (length (IndexTable.tracks with_leadout))
    = Ok <$> lens ∧
    Zsum lens = 31116 - 0.
Proof.
  apply (IndexTable_lengths_sum with_leadout
           (λ i, match i with O => 0 | _ => 15537 end) 31116).
  - reflexivity.
  - intros i track Hi.
    destruct i as [| [| i]]; simpl in Hi.
    + injection Hi as <-. eexists. split; vm_compute; reflexivity.
    + injection Hi as <-. eexists. split; vm_compute; reflexivity.
    + discriminate Hi.
  - discriminate.
Defined.

(* ===================================================================== *)
(** * The digit sum, the audio count and the accuracy loop *)
(* ===================================================================== *)

(** X1: [_cddbSum] is the base-10 digit sum of a positive argument, and 0 for
    0 and for every negative argument: the loop body never runs. *)
Theorem cddbSum_cases (i : Z) :
  (i ≤ 0 → _cddbSum i = 0) ∧ (0 < i → _cddbSum i = digit_sum i ∧ 0 < _cddbSum i).
Proof.
  split; [apply cddbSum_nonpos |].
  intros Hi. split; [apply cddbSum_digit_sum; lia |].
  unfold _cddbSum.
  (* the first iteration adds the units digit, the others add no less
     than 0; a number with units digit 0 is at least 10 *)
  assert (∀ k ret j, 0 ≤ j < 10 ^ Z.of_nat k →
                     ret ≤ _cddbSum_loop ret j ∧
                     (0 < j → ret < _cddbSum_loop ret j)) as Hmono.
  { clear. induction k as [| k IH]; intros ret j Hj; rewrite cddbSum_loop_eq.
    - change (10 ^ Z.of_nat 0) with 1 in Hj. destruct (decide _); lia.
    - destruct (decide _) as [Hpos | Hzero]; [| lia].
      rewrite Nat2Z.inj_succ, Z.pow_succ_r in Hj by lia.
      assert (0 ≤ j `div` 10 < 10 ^ Z.of_nat k) as Hq.
      { split; [apply Z.div_pos; lia | apply Z.div_lt_upper_bound; lia]. }
      destruct (IH (ret + j `mod` 10) (j `div` 10) Hq) as [Hle Hlt].
      pose proof (Z.mod_pos_bound j 10 ltac:(lia)).
      split; [lia |]. intros _.
      destruct (decide (j `mod` 10 = 0)) as [Hunits | Hunits]; [| lia].
      assert (0 < j `div` 10); [| lia].
      pose proof (Z.div_mod j 10 ltac:(lia)). lia. }
  destruct (Hmono (S (Z.to_nat (Z.log2 i))) 0 i) as [_ Hlt]; [| by apply Hlt].
  split; [lia |].
  pose proof (Z.log2_nonneg i).
  rewrite Nat2Z.inj_succ, Z2Nat.id by done.
  destruct (Z.log2_spec i) as [_ Hlt]; [lia |].
  eapply Z.lt_le_trans; [exact Hlt |]. apply Z.pow_le_mono_l. lia.
Qed.

Lemma cddbSum_cases_witness :
  _cddbSum (-12) = 0 ∧ (_cddbSum 209 = digit_sum 209 ∧ 0 < _cddbSum 209).
Proof.
  split.
  - apply (proj1 (cddbSum_cases (-12))). lia.
  - apply (proj2 (cddbSum_cases 209)). lia.
Defined.

(** X2: The digit sum is congruent to the number modulo 9 and never exceeds
    it. *)
Theorem cddbSum_mod_9 (i : Z) :
  0 ≤ i → _cddbSum i `mod` 9 = i `mod` 9 ∧ 0 ≤ _cddbSum i ≤ i.
Proof.
  intros Hi.
  assert (∀ k ret j, 0 ≤ j < 10 ^ Z.of_nat k →
                     ∃ c, 0 ≤ c ∧ ret + j = _cddbSum_loop ret j + 9 * c ∧
                          ret ≤ _cddbSum_loop ret j) as Hloop.
  { clear. induction k as [| k IH]; intros ret j Hj; rewrite cddbSum_loop_eq.
    - change (10 ^ Z.of_nat 0) with 1 in Hj.
      destruct (decide _); [lia |]. exists 0. lia.
    - destruct (decide _) as [Hpos | Hzero]; [| exists 0; lia].
      rewrite Nat2Z.inj_succ, Z.pow_succ_r in Hj by lia.
      assert (0 ≤ j `div` 10 < 10 ^ Z.of_nat k) as Hq.
      { split; [apply Z.div_pos; lia | apply Z.div_lt_upper_bound; lia]. }
      destruct (IH (ret + j `mod` 10) (j `div` 10) Hq) as (c & Hc & Heq & Hle).
      pose proof (Z.mod_pos_bound j 10 ltac:(lia)).
      pose proof (Z.div_mod j 10 ltac:(lia)).
      exists (c + j `div` 10). lia. }
  destruct (Hloop (S (Z.to_nat (Z.log2 i))) 0 i) as (c & Hc & Heq & Hle).
  { split; [lia |].
    pose proof (Z.log2_nonneg i).
    rewrite Nat2Z.inj_succ, Z2Nat.id by done.
    destruct (decide (i = 0)) as [-> | Hne]; [done |].
    destruct (Z.log2_spec i) as [_ Hlt]; [lia |].
    eapply Z.lt_le_trans; [exact Hlt |]. apply Z.pow_le_mono_l. lia. }
  fold (_cddbSum i) in Heq, Hle. split; [| lia].
  replace i with (_cddbSum i + c * 9) at 2 by lia.
  by rewrite Z.mod_add by lia.
Qed.

Lemma cddbSum_mod_9_witness :
  _cddbSum 1333 `mod` 9 = 1333 `mod` 9 ∧ 0 ≤ _cddbSum 1333 ≤ 1333.
Proof. apply (cddbSum_mod_9 1333). lia. Defined.

(** Bits of [y] below [2 ^ k] do not meet those of a multiple of
    [2 ^ k]: [|] adds the two. *)
Lemma lor_mul_pow2 (x y k : Z) :
  0 ≤ k → 0 ≤ y < 2 ^ k → Z.lor (x * 2 ^ k) y = x * 2 ^ k + y.
Proof.
  intros Hk Hy.
  assert (Z.land (x * 2 ^ k) y = 0) as Hland.
  { apply Z.bits_inj'. intros i Hi. rewrite Z.land_spec, Z.bits_0.
    destruct (decide (i < k)).
    - rewrite Z.mul_pow2_bits_low by lia. done.
    - rewrite <- (Z.mod_small y (2 ^ k)) by lia.
      rewrite Z.mod_pow2_bits_high by lia. apply andb_false_r. }
  rewrite <- Z.lxor_lor by done. symmetry. by apply Z.add_nocarry_lxor.
Qed.

Section MoreIdentifierFacts.
Context {T Tr : Type} `{TrackTable T Tr}.
Implicit Types (self : T) (st : Tr → Z).

(** The value of [getCDDBDiscId] when all boundary queries answer, with
    the digit sums as [_cddbSum] computes them. *)
Lemma cddb_value_resolved self st (lastTrack : Tr) (lastEnd firstStart : Z) :
  last (tracks self) = Some lastTrack →
  (∀ t, t ∈ tracks self → getTrackStart self (number t) = Ok (Some (st t))) →
  getTrackEnd self (number lastTrack) = Ok lastEnd →
  getTrackStart self 1 = Ok (Some firstStart) →
  cddb_value self =
  Ok (Z.lor (Z.lor (Z.shiftl
                      (Zsum ((λ t, _cddbSum ((st t + 150) `div` 75))
                               <$> tracks self) `mod` 255) 24)
                   (Z.shiftl ((lastEnd - firstStart) `div` 75) 8))
            (Z.of_nat (length (tracks self)))).
Proof.
  intros Hlast Hst Hend Hfirst. unfold cddb_value.
  rewrite (cddb_loop self st) by done. simpl.
  rewrite (py_index_last _ _ Hlast). simpl.
  rewrite Hend. simpl. rewrite Hfirst. simpl. by rewrite Z.add_0_l.
Qed.

(** X3: The count of audio tracks lies between 0 and the number of tracks, and
    reaches it exactly when every track is audio. *)
Theorem getAudioTracks_bounds self :
  0 ≤ getAudioTracks self ≤ Z.of_nat (length (tracks self)) ∧
  (getAudioTracks self = Z.of_nat (length (tracks self)) ↔
   Forall (λ t, audio t = true) (tracks self)).
Proof.
  unfold getAudioTracks. generalize (tracks self). intros l.
  assert (length (filter (λ t, audio t = true) l) ≤ length l)%nat as Hle
    by apply length_filter.
  split; [lia |].
  induction l as [| t l IH]; [split; [constructor | done] |].
  destruct (decide (audio t = true)) as [Ha | Ha].
  - rewrite filter_cons_True in * by done. simpl in *.
    rewrite Forall_cons. split.
    + intros Hlen. split; [done |]. apply IH; lia.
    + intros [_ Hall]. apply IH in Hall; lia.
  - rewrite filter_cons_False in * by done. simpl in *.
    pose proof (length_filter (λ t, audio t = true) l).
    rewrite Forall_cons. split; [lia | by intros [? _]].
Qed.

(** X4: The loop of [getAccurateRipIds] leaves data tracks out altogether:
    running it over all tracks and over the audio tracks alone gives the
    same accumulators, or the same exception. *)
Theorem ar_loop_audio_only self (l : list Tr) (ids : Z * Z) :
  for_each (ar_step self) l ids =
  for_each (ar_step self) (filter (λ t, audio t = true) l) ids.
Proof.
  revert ids. induction l as [| t l IH]; intros [discId1 discId2]; [done |].
  destruct (audio t) eqn:Ha.
  - rewrite filter_cons_True by done. simpl. rewrite Ha. simpl.
    destruct (getTrackStart self (number t)) as [start |]; simpl; [| done].
    destruct (as_int start) as [offset |]; simpl; [| done]. apply IH.
  - rewrite filter_cons_False by congruence. simpl. rewrite Ha. simpl. apply IH.
Qed.

(** X5: Whatever the table, the two strings that [getAccurateRipIds] returns
    have exactly 8 lowercase hexadecimal characters. *)
Theorem getAccurateRipIds_always_hex8 self (id1 id2 : string) :
  getAccurateRipIds self = Ok (id1, id2) →
  is_hex8 id1 = true ∧ is_hex8 id2 = true.
Proof.
  unfold getAccurateRipIds.
  destruct (for_each _ _ _) as [[discId1 discId2] |]; [cbn [bind] | done].
  destruct (py_index _ _) as [lastTrack |]; [cbn [bind] | done].
  destruct (getTrackEnd _ _) as [end_ |]; [cbn [bind] | done].
  intros [= <- <-].
  (* the mask leaves a value of 32 bits *)
  split; apply fmt_08x_hex8, land_32_range.
Qed.

(** X6: The last byte of the value of [getCDDBDiscId] is the number of tracks
    modulo 256, whatever the boundaries are. *)
Theorem cddb_value_low_byte self (v : Z) :
  cddb_value self = Ok v →
  v `mod` 256 = Z.of_nat (length (tracks self)) `mod` 256.
Proof.
  unfold cddb_value.
  destruct (for_each _ _ _) as [n |]; simpl; [| done].
  destruct (py_index _ _) as [lastTrack |]; simpl; [| done].
  destruct (getTrackEnd _ _) as [leadout |]; simpl; [| done].
  destruct (getTrackStart _ _) as [start |]; simpl; [| done].
  destruct (as_int start) as [start' |]; simpl; [| done].
  intros [= <-].
  change 256 with (2 ^ 8). rewrite <- !Z.land_ones by lia.
  rewrite !Z.land_lor_distr_l.
  assert (∀ x k, 8 ≤ k → Z.land (Z.shiftl x k) (Z.ones 8) = 0) as Hhigh.
  { intros x k Hk. apply Z.bits_inj'. intros i Hi.
    rewrite Z.land_spec, Z.bits_0.
    destruct (decide (i < 8)).
    - rewrite Z.shiftl_spec_low by lia. done.
    - rewrite Z.ones_spec_high by lia. apply andb_false_r. }
  by rewrite !Hhigh by lia.
Qed.
End MoreIdentifierFacts.

Lemma getAccurateRipIds_always_hex8_witness :
  is_hex8 "0001c352" = true ∧ is_hex8 "00050d46" = true.
Proof.
  apply (getAccurateRipIds_always_hex8 three_tracks). vm_compute. reflexivity.
Defined.

Lemma cddb_value_low_byte_witness :
  402994435 `mod` 256 = Z.of_nat (length (tracks three_tracks)) `mod` 256.
Proof. apply (cddb_value_low_byte three_tracks). vm_compute. reflexivity. Defined.

(** X7: On a disc of at most 255 tracks that plays for less than 65536
    seconds, the three fields of the legacy identifier do not overlap: the
    value is [(n mod 255) * 2^24 + totalSeconds * 2^8 + trackCount], and
    the string has exactly 8 lowercase hexadecimal characters. *)
Theorem getCDDBDiscId_fields {T Tr : Type} `{TrackTable T Tr}
    (self : T) (st : Tr → Z) (lastTrack : Tr) (lastEnd firstStart : Z) :
  last (tracks self) = Some lastTrack →
  (∀ t, t ∈ tracks self → getTrackStart self (number t) = Ok (Some (st t))) →
  getTrackEnd self (number lastTrack) = Ok lastEnd →
  getTrackStart self 1 = Ok (Some firstStart) →
  (length (tracks self) ≤ 255)%nat →
  0 ≤ lastEnd - firstStart < 75 * 2 ^ 16 →
  let n := Zsum ((λ t, _cddbSum ((st t + 150) `div` 75)) <$> tracks self) in
  let value := (n `mod` 255) * 2 ^ 24
               + ((lastEnd - firstStart) `div` 75) * 2 ^ 8
               + Z.of_nat (length (tracks self)) in
  cddb_value self = Ok value ∧
  getCDDBDiscId self = Ok (fmt_08x value) ∧
  is_hex8 (fmt_08x value) = true.
Proof.
  intros Hlast Hst Hend Hfirst Hcount Hduration n value.
  pose proof (Z.mod_pos_bound n 255 ltac:(lia)) as Hn.
  assert (0 ≤ (lastEnd - firstStart) `div` 75 < 2 ^ 16) as Ht.
  { split; [apply Z.div_pos; lia | apply Z.div_lt_upper_bound; lia]. }
  assert (cddb_value self = Ok value) as Hvalue.
  { rewrite (cddb_value_resolved self st lastTrack lastEnd firstStart) by done.
    f_equal. fold n. unfold value.
    rewrite !Z.shiftl_mul_pow2 by lia.
    rewrite (lor_mul_pow2 (n `mod` 255) _ 24) by lia.
    replace (n `mod` 255 * 2 ^ 24 + (lastEnd - firstStart) `div` 75 * 2 ^ 8)
      with ((n `mod` 255 * 2 ^ 16 + (lastEnd - firstStart) `div` 75) * 2 ^ 8)
      by lia.
    rewrite lor_mul_pow2 by lia. lia. }
  split; [done |]. split; [by apply getCDDBDiscId_Ok |].
  apply fmt_08x_hex8. unfold value. lia.
Qed.

Lemma getCDDBDiscId_fields_witness :
  cddb_value three_tracks = Ok (24 * 2 ^ 24 + 1333 * 2 ^ 8 + 3) ∧
  getCDDBDiscId three_tracks = Ok "18053503" ∧
  is_hex8 "18053503" = true.
Proof.
  destruct (getCDDBDiscId_fields three_tracks Track.start
              (Track.mk 3 31116 100000 false) 100000 0)
    as (Hvalue & Hid & Hhex).
  - reflexivity.
  - intros t Ht. simpl in Ht.
    apply elem_of_cons in Ht as [-> | Ht]; [reflexivity |].
    apply elem_of_cons in Ht as [-> | Ht]; [reflexivity |].
    apply elem_of_cons in Ht as [-> | Ht]; [reflexivity |].
    by apply elem_of_nil in Ht.
  - reflexivity.
  - reflexivity.
  - simpl. lia.
  - lia.
  - rewrite Hvalue, Hid. split; [vm_compute; reflexivity |].
    split; [vm_compute; reflexivity |]. vm_compute. reflexivity.
Defined.

(** X9: An index table without leadout has no identifiers: when it has a track
    and every start is resolved, the three identifier queries raise
    [TypeError]. *)
Theorem identifiers_need_leadout (it : IndexTable.t) (st : ITTrack.t → Z) :
  IndexTable.leadout it = None →
  IndexTable.tracks it ≠ [] →
  (∀ t, t ∈ IndexTable.tracks it →
        IndexTable.getTrackStart it (ITTrack.number t) = Ok (Some (st t))) →
  getCDDBDiscId it = Raise TypeError ∧
  getAccurateRipIds it = Raise TypeError ∧
  getAccurateRipURL it = Raise TypeError.
Proof.
  intros Hnone Hne Hst.
  apply last_is_Some in Hne as [lastTrack Hlast].
  assert (getTrackEnd it (number lastTrack) = Raise TypeError) as Hend.
  { simpl. unfold IndexTable.getTrackEnd. by rewrite Hnone. }
  assert (py_index (tracks it) (-1) = Ok lastTrack) as Hidx
    by (apply py_index_last; exact Hlast).
  assert (getAccurateRipIds it = Raise TypeError) as Hids.
  { unfold getAccurateRipIds.
    rewrite (ar_loop it st) by (intros t Ht _; by apply Hst). cbn [bind].
    rewrite Hidx. cbn [bind]. by rewrite Hend. }
  split; [| split; [done |]].
  - unfold getCDDBDiscId, cddb_value.
    rewrite (cddb_loop it st) by done. cbn [bind].
    rewrite Hidx. cbn [bind]. by rewrite Hend.
  - unfold getAccurateRipURL. by rewrite Hids.
Qed.

Lemma identifiers_need_leadout_witness :
  getCDDBDiscId no_leadout = Raise TypeError ∧
  getAccurateRipIds no_leadout = Raise TypeError ∧
  getAccurateRipURL no_leadout = Raise TypeError.
Proof.
  apply (identifiers_need_leadout no_leadout
           (λ t, if ITTrack.number t =? 1 then 0 else 15537)).
  - reflexivity.
  - discriminate.
  - intros t Ht. simpl in Ht.
    apply elem_of_cons in Ht as [-> | Ht]; [vm_compute; reflexivity |].
    apply elem_of_cons in Ht as [-> | Ht]; [vm_compute; reflexivity |].
    by apply elem_of_nil in Ht.
Defined.

(** X8: A flat table with at least one track, numbered 1, 2, ... in order, has
    all its identifiers: the three queries return, and the starts they
    read are those of the tracks themselves. *)
Theorem Table_identifiers_return (tb : Table.t) :
  Table.tracks tb ≠ [] →
  (∀ i t, Table.tracks tb !! i = Some t → Track.number t = Z.of_nat i + 1) →
  (∀ t, t ∈ Table.tracks tb →
        Table.getTrackStart tb (Track.number t) = Ok (Track.start t) ∧
        Table.getTrackEnd tb (Track.number t) = Ok (Track.end_ t)) ∧
  ∃ cddb id1 id2 url,
    getCDDBDiscId tb = Ok cddb ∧
    getAccurateRipIds tb = Ok (id1, id2) ∧
    getAccurateRipURL tb = Ok url.
Proof.
  intros Hne Hnum.
  assert (∀ t, t ∈ Table.tracks tb →
               py_index (Table.tracks tb) (Track.number t - 1) = Ok t) as Hidx.
  { intros t Ht. apply list_elem_of_lookup in Ht as [i Hi].
    rewrite (Hnum i t Hi). replace (Z.of_nat i + 1 - 1) with (Z.of_nat i) by lia.
    by apply py_index_nonneg. }
  assert (∀ t, t ∈ Table.tracks tb →
               Table.getTrackStart tb (Track.number t) = Ok (Track.start t) ∧
               Table.getTrackEnd tb (Track.number t) = Ok (Track.end_ t)) as Hq.
  { intros t Ht. unfold Table.getTrackStart, Table.getTrackEnd.
    by rewrite (Hidx t Ht). }
  split; [exact Hq |].
  assert (is_Some (last (Table.tracks tb))) as [lastTrack Hlast]
    by by apply last_is_Some.
  assert (lastTrack ∈ Table.tracks tb) as HlastIn.
  { rewrite last_lookup in Hlast. by eapply list_elem_of_lookup_2. }
  assert (is_Some (Table.tracks tb !! 0%nat)) as [first Hfirst0].
  { apply lookup_lt_is_Some_2. destruct (Table.tracks tb); [done | simpl; lia]. }
  assert (∀ t, t ∈ tracks tb →
               getTrackStart tb (number t) = Ok (Some (Track.start t))) as Hst.
  { intros t Ht. simpl. by rewrite (proj1 (Hq t Ht)). }
  assert (getTrackStart tb 1 = Ok (Some (Track.start first))) as Hfirst.
  { simpl. unfold Table.getTrackStart.
    change (1 - 1) with (Z.of_nat 0).
    by rewrite (py_index_nonneg _ 0 first Hfirst0). }
  assert (getTrackEnd tb (number lastTrack) = Ok (Track.end_ lastTrack)) as Hend.
  { simpl. apply (Hq lastTrack HlastIn). }
  assert (py_index (tracks tb) (-1) = Ok lastTrack) as Hlastidx
    by (apply py_index_last; exact Hlast).
  pose proof (cddb_value_resolved tb Track.start lastTrack _ _ Hlast Hst Hend Hfirst)
    as Hvalue.
  apply getCDDBDiscId_Ok in Hvalue.
  assert (∃ id1 id2, getAccurateRipIds tb = Ok (id1, id2)) as (id1 & id2 & Hids).
  { unfold getAccurateRipIds.
    rewrite (ar_loop tb Track.start) by (intros t Ht _; by apply Hst). cbn [bind].
    rewrite Hlastidx. cbn [bind]. rewrite Hend. cbn [bind].
    by eexists _, _. }
  destruct (getAccurateRipIds_hex8 tb id1 id2 Hids) as [Hlen _].
  apply is_hex8_length in Hlen.
  destruct (str_index_from_end id1 0) as (d1 & _ & Hs1); [lia |].
  destruct (str_index_from_end id1 1) as (d2 & _ & Hs2); [lia |].
  destruct (str_index_from_end id1 2) as (d3 & _ & Hs3); [lia |].
  eexists _, id1, id2, _. split; [exact Hvalue |]. split; [exact Hids |].
  unfold getAccurateRipURL. rewrite Hids. simpl bind.
  change (-1) with (- Z.of_nat 1). rewrite Hs1. simpl bind.
  change (-2) with (- Z.of_nat 2). rewrite Hs2. simpl bind.
  change (-3) with (- Z.of_nat 3). rewrite Hs3. simpl bind.
  rewrite Hvalue. simpl bind. reflexivity.
Qed.

Lemma Table_identifiers_return_witness :
  ∃ cddb id1 id2 url,
    getCDDBDiscId three_tracks = Ok cddb ∧
    getAccurateRipIds three_tracks = Ok (id1, id2) ∧
    getAccurateRipURL three_tracks = Ok url.
Proof.
  apply (Table_identifiers_return three_tracks).
  - discriminate.
  - intros i t Hi.
    destruct i as [| [| [| i]]]; simpl in Hi;
      [injection Hi as <-; reflexivity .. | discriminate Hi].
Defined.

(** A track numbered past the end of the table makes the legacy
    identifier fail. *)
Example getCDDBDiscId_misnumbered :
  getCDDBDiscId (Table.mk [Track.mk 2 0 15536 true]) = Raise IndexError.
Proof. vm_compute. reflexivity. Qed.

(* ===================================================================== *)
(** * The indexes of a track *)
(* ===================================================================== *)

(** X16: [index] then [getIndex]: the index just stored is read back under its
    number, every other number reads as before, and storing a number twice
    keeps the second index only. *)
Theorem ITTrack_index_getIndex (self : ITTrack.t) (n m : Z)
    (absolute : option Z) (path : option string) (relative counter : option Z) :
  let self' := ITTrack.index self n absolute path relative counter in
  ITTrack.getIndex self' n
  = Ok (Index.mk n absolute path relative counter) ∧
  (m ≠ n → ITTrack.getIndex self' m = ITTrack.getIndex self m) ∧
  (∀ a p r c, ITTrack.index self' n a p r c = ITTrack.index self n a p r c) ∧
  ITTrack.number self' = ITTrack.number self ∧
  ITTrack.audio self' = ITTrack.audio self.
Proof.
  intros self'. unfold self', ITTrack.getIndex, ITTrack.index, dict_get. simpl.
  repeat split.
  - by rewrite lookup_insert_eq.
  - intros Hne. by rewrite lookup_insert_ne.
  - intros a p r c. by rewrite insert_insert_eq.
Qed.

(** The keys in sorted order: every key of the dictionary, the smallest
    first. *)
Lemma sorted_keys_head {V : Type} (d : gmap Z V) (k : Z) (ks : list Z) :
  sorted_keys d = k :: ks →
  is_Some (d !! k) ∧ ∀ k', is_Some (d !! k') → k ≤ k'.
Proof.
  intros Hsorted.
  assert (∀ k', k' ∈ sorted_keys d ↔ is_Some (d !! k')) as Hkeys.
  { intros k'. unfold sorted_keys. rewrite merge_sort_Permutation.
    rewrite list_elem_of_fmap. split.
    - intros ([k'' v] & -> & Hin). apply elem_of_map_to_list in Hin. by exists v.
    - intros [v Hv]. exists (k', v). split; [done |]. by apply elem_of_map_to_list. }
  pose proof (StronglySorted_merge_sort Z.le (map_to_list d).*1) as Hs.
  fold (sorted_keys d) in Hs. rewrite Hsorted in Hs, Hkeys.
  apply StronglySorted_inv in Hs as [_ Hall].
  split; [apply Hkeys; by left |].
  intros k' Hk'. apply Hkeys in Hk'. apply elem_of_cons in Hk' as [-> | Hin]; [done |].
  rewrite Forall_forall in Hall. by apply Hall.
Qed.

Lemma sorted_keys_nil {V : Type} (d : gmap Z V) : sorted_keys d = [] ↔ d = ∅.
Proof.
  unfold sorted_keys. rewrite <- map_to_list_empty_iff. split.
  - intros Hnil.
    pose proof (merge_sort_Permutation Z.le (map_to_list d).*1) as Hp.
    rewrite Hnil in Hp. apply Permutation_nil in Hp.
    by apply fmap_nil_inv in Hp.
  - by intros ->.
Qed.

Lemma getFirstIndex_cases (self : ITTrack.t) :
  (ITTrack.indexes self = ∅ → ITTrack.getFirstIndex self = Raise IndexError) ∧
  (ITTrack.indexes self ≠ ∅ →
   ∃ k i, ITTrack.getFirstIndex self = Ok i ∧
          ITTrack.indexes self !! k = Some i ∧
          ∀ k', is_Some (ITTrack.indexes self !! k') → k ≤ k').
Proof.
  unfold ITTrack.getFirstIndex. split.
  - intros Hempty. apply sorted_keys_nil in Hempty. by rewrite Hempty.
  - intros Hne.
    destruct (sorted_keys (ITTrack.indexes self)) as [| k ks] eqn:Hsorted.
    { by apply sorted_keys_nil in Hsorted. }
    destruct (sorted_keys_head _ _ _ Hsorted) as [[i Hi] Hmin].
    exists k, i. change (py_index (k :: ks) 0) with (Ok (A := Z) k). simpl.
    unfold dict_get. by rewrite Hi.
Qed.

(** X17: [getFirstIndex] returns the index stored under the smallest number; it
    raises [IndexError] on a track without indexes, and nothing else. *)
Theorem getFirstIndex_smallest (self : ITTrack.t) :
  (ITTrack.indexes self = ∅ → ITTrack.getFirstIndex self = Raise IndexError) ∧
  (ITTrack.indexes self ≠ ∅ →
   ∃ k i, ITTrack.getFirstIndex self = Ok i ∧
          ITTrack.indexes self !! k = Some i ∧
          ∀ k', is_Some (ITTrack.indexes self !! k') → k ≤ k').
Proof.
  unfold ITTrack.getFirstIndex. split.
  - intros Hempty. apply sorted_keys_nil in Hempty. by rewrite Hempty.
  - intros Hne.
    destruct (sorted_keys (ITTrack.indexes self)) as [| k ks] eqn:Hsorted.
    { by apply sorted_keys_nil in Hsorted. }
    (* the head of the sorted keys is a key, and the smallest *)
    destruct (sorted_keys_head _ _ _ Hsorted) as [[i Hi] Hmin].
    exists k, i. change (py_index (k :: ks) 0) with (Ok (A := Z) k). simpl.
    unfold dict_get. by rewrite Hi.
Qed.

Lemma getFirstIndex_smallest_witness :
  ITTrack.getFirstIndex (ITTrack.new 1 true) = Raise IndexError ∧
  ∃ k i, ITTrack.getFirstIndex
           (ITTrack.index
              (ITTrack.index (ITTrack.new 2 true) 1 None (Some "b.wav")
                 (Some 150) None)
              0 None (Some "a.wav") (Some 0) None) = Ok i ∧
         Index.number i = k ∧ k = 0.
Proof.
  split.
  - apply (proj1 (getFirstIndex_smallest (ITTrack.new 1 true))). reflexivity.
  - destruct (proj2 (getFirstIndex_smallest
                       (ITTrack.index
                          (ITTrack.index (ITTrack.new 2 true) 1 None (Some "b.wav")
                             (Some 150) None)
                          0 None (Some "a.wav") (Some 0) None)))
      as (k & i & Hfirst & _ & _).
    + intros Hempty.
      apply (f_equal (λ d : gmap Z Index.t, d !! 0)) in Hempty.
      vm_compute in Hempty. discriminate Hempty.
    + exists 0, i. split; [exact Hfirst |].
      vm_compute in Hfirst. injection Hfirst as <-. split; reflexivity.
Defined.

Lemma ITTrack_index_getIndex_witness :
  ITTrack.getIndex
    (ITTrack.index (ITTrack.index (ITTrack.new 2 true) 1 None None None None)
       0 (Some 5) None None None) 1
  = ITTrack.getIndex (ITTrack.index (ITTrack.new 2 true) 1 None None None None) 1.
Proof.
  refine (proj1 (proj2 (ITTrack_index_getIndex
                          (ITTrack.index (ITTrack.new 2 true) 1 None None None None)
                          0 1 (Some 5) None None None)) _).
  lia.
Defined.

(* ===================================================================== *)
(** * The cue sheet, once more *)
(* ===================================================================== *)



(** X18: [cue] needs a first index: it raises [IndexError] on a table without
    tracks and on a table whose first track has no index. *)
Theorem cue_needs_first_index (self : IndexTable.t) :
  (IndexTable.tracks self = [] → IndexTable.cue self = Raise IndexError) ∧
  (∀ first rest, IndexTable.tracks self = first :: rest →
                 ITTrack.indexes first = ∅ →
                 IndexTable.cue self = Raise IndexError).
Proof.
  unfold IndexTable.cue. split.
  - intros ->. done.
  - intros first rest -> Hempty.
    change (py_index (first :: rest) 0) with (Ok first). simpl.
    by rewrite (proj1 (getFirstIndex_cases first) Hempty).
Qed.

Lemma cue_needs_first_index_witness :
  IndexTable.cue (IndexTable.mk [] None) = Raise IndexError ∧
  IndexTable.cue (IndexTable.mk [ITTrack.new 1 true] None) = Raise IndexError.
Proof.
  split.
  - apply (proj1 (cue_needs_first_index (IndexTable.mk [] None))). reflexivity.
  - apply (proj2 (cue_needs_first_index (IndexTable.mk [ITTrack.new 1 true] None))
             (ITTrack.new 1 true) []); reflexivity.
Defined.




Lemma for_each_ext {A S : Type} (body body' : S → A → result S) (l : list A) :
  (∀ s x, body s x = body' s x) →
  ∀ s, for_each body l s = for_each body' l s.
Proof.
  intros Hext. induction l as [| x l IH]; intros s; simpl; [done |].
  rewrite Hext. destruct (body' s x); simpl; [apply IH | done].
Qed.

(** The outer loop of [cue] over two lists of tracks that carry the same
    indexes, place by place. *)
Lemma cue_tracks_indexes_only (cp : option string) (f : nat → nat)
    (l l' : list ITTrack.t) (lines : list string) :
  Forall2 (λ t t', ITTrack.indexes t = ITTrack.indexes t') l l' →
  for_each (IndexTable.cue_track cp) (imap (λ i t, (f i, t)) l) lines =
  for_each (IndexTable.cue_track cp) (imap (λ i t, (f i, t)) l') lines.
Proof.
  intros Hall. revert f lines.
  induction Hall as [| t t' l l' Ht Hall IH]; intros f lines; [done |].
  rewrite !imap_cons. cbn [for_each].
  assert (IndexTable.cue_track cp lines (f 0%nat, t)
          = IndexTable.cue_track cp lines (f 0%nat, t')) as ->.
  { unfold IndexTable.cue_track. rewrite Ht. apply for_each_ext.
    intros s n. unfold IndexTable.cue_index. by rewrite Ht. }
  destruct (IndexTable.cue_track _ _ _); cbn [bind]; [| done].
  apply (IH (f ∘ S)).
Qed.

(** X21: [cue] reads the indexes of the tracks and nothing else: the number
    and the audio flag of a track and the leadout of the table do not show
    in the sheet.  Tracks are numbered by their place, and all of them are
    written as AUDIO. *)
Theorem cue_reads_indexes_only (self other : IndexTable.t) :
  Forall2 (λ t t', ITTrack.indexes t = ITTrack.indexes t')
    (IndexTable.tracks self) (IndexTable.tracks other) →
  IndexTable.cue self = IndexTable.cue other.
Proof.
  intros Hall. unfold IndexTable.cue.
  pose proof (cue_tracks_indexes_only) as Hloop.
  inversion Hall as [Hs Ho | t t' l l' Ht Hall' Hs Ho]; [done |].
  change (py_index (t :: l) 0) with (Ok t).
  change (py_index (t' :: l') 0) with (Ok t').
  cbn [bind]. unfold ITTrack.getFirstIndex. rewrite Ht.
  destruct (bind (py_index (sorted_keys (ITTrack.indexes t')) 0) _) as [i |];
    cbn [bind]; [| done].
  change (imap pair (t :: l)) with (imap (λ i t, (id i, t)) (t :: l)).
  change (imap pair (t' :: l')) with (imap (λ i t, (id i, t)) (t' :: l')).
  rewrite (Hloop _ id (t :: l) (t' :: l')); [done |].
  by constructor.
Qed.

(** The tracks of [no_leadout] under other numbers, the first one as a
    data track, and with a leadout. *)
Lemma cue_reads_indexes_only_witness :
  IndexTable.cue no_leadout =
  IndexTable.cue
    (IndexTable.mk
       [ITTrack.index (ITTrack.new 7 false) 1 (Some 0) (Some "a.wav") (Some 0) None;
        ITTrack.index (ITTrack.new 7 true) 1 (Some 15537) (Some "a.wav")
          (Some 15537) None]
       (Some 31116)).
Proof.
  apply (cue_reads_indexes_only no_leadout).
  simpl. repeat constructor.
Defined.

(** X22: The first line of a cue sheet is the FILE line of the first track's
    index of smallest number. *)
Theorem cue_first_line (self : IndexTable.t) (s : string) :
  IndexTable.cue self = Ok s →
  ∃ first k i rest,
    IndexTable.tracks self !! 0%nat = Some first ∧
    ITTrack.indexes first !! k = Some i ∧
    (∀ k', is_Some (ITTrack.indexes first !! k') → k ≤ k') ∧
    s = IndexTable.file_line (Index.path i) +:+ newline +:+ rest.
Proof.
  unfold IndexTable.cue.
  destruct (py_index _ _) as [first |] eqn:Hfirst; simpl; [| done].
  apply py_index_nonneg_Ok in Hfirst; [| done].
  destruct (ITTrack.getFirstIndex first) as [i |] eqn:Hi; simpl; [| done].
  destruct (proj2 (getFirstIndex_cases first)) as (k & i' & Hi' & Hk & Hmin).
  { intros Hempty.
    by rewrite (proj1 (getFirstIndex_cases first) Hempty) in Hi. }
  assert (i' = i) as -> by congruence.
  pose (P := λ lines : list string,
          ∃ tl, lines = IndexTable.file_line (Index.path i) :: tl).
  destruct (for_each _ _ _) as [lines |] eqn:Hlines; simpl; [| done].
  intros [= <-].
  assert (P lines) as [tl ->].
  { revert Hlines. apply (for_each_invariant P).
    - intros lines0 [n track] lines1 [tl ->]. unfold IndexTable.cue_track.
      apply (for_each_invariant P).
      + intros lines2 number lines3 [tl2 ->]. unfold IndexTable.cue_index.
        destruct (dict_get _ _) as [index |]; simpl; [| done].
        destruct (framesToMSF _) as [msf |]; simpl; [| done].
        intros [= <-]. destruct (decide _); by eexists.
      + by eexists.
    - by exists []. }
  exists first, k, i, (join newline (tl ++ [EmptyString])).
  repeat split; try done.
  by destruct tl.
Qed.

Lemma cue_first_line_witness :
  ∃ first k i rest,
    IndexTable.tracks test_write !! 0%nat = Some first ∧
    ITTrack.indexes first !! k = Some i ∧
    (∀ k', is_Some (ITTrack.indexes first !! k') → k ≤ k') ∧
    join newline
      [IndexTable.file_line (Some "track01.wav");
       "  TRACK 01 AUDIO";
       "    INDEX 01 00:00:00";
       "  TRACK 02 AUDIO";
       "    INDEX 00 00:13:25";
       IndexTable.file_line (Some "track02.wav");
       "    INDEX 01 00:00:00";
       EmptyString]
    = IndexTable.file_line (Index.path i) +:+ newline +:+ rest.
Proof. apply (cue_first_line test_write). vm_compute. reflexivity. Defined.
